(** * server.js: the OpenAI-to-NIM proxy, embedded and verified

    The development follows the layout of [server.js]:
    - the platform pieces the handlers call (strings, [Buffer.toString],
      JSON values and property access);
    - the lorebook matcher [findRelevantLoreEntries];
    - the request mapper [nimRequest];
    - the streaming handler [response.data.on('data', ...)].

    A JavaScript string is represented by the UTF-8 image of its text, as a
    [string] of bytes: every operation the program applies ([split] on the
    line feed, [startsWith], [includes], [slice] behind an ASCII prefix, the
    two directive patterns) is delimited by ASCII characters, and on
    well-formed UTF-8 those operations coincide on bytes and on code units. *)

From Stdlib Require Import ZArith NArith String Ascii List Bool Lia DecimalString.
From Stdlib.Strings Require Import Byte.
From stdpp Require Import base strings gmap list sorting.

Local Set Warnings "-register-all".

(** * The program *)

(** ** Configuration

    The two toggles as the file sets them.  The handlers below take them as
    parameters, for the statements speak of both settings; [ENABLE_LOREBOOK]
    comes from the environment and is a parameter throughout. *)

Module Config.
Definition SHOW_REASONING : bool := false.
Definition ENABLE_THINKING_MODE : bool := true.
End Config.

(** ** Strings *)

Definition LF : ascii := "010"%char.
Definition nl : string := String LF "".

(** [s.startsWith(p)] *)
Definition startsWith (p s : string) : bool := String.prefix p s.

(** [s.includes(p)] *)
Fixpoint includes (p s : string) : bool :=
  String.prefix p s ||
  match s with
  | "" => false
  | String _ s' => includes p s'
  end.

(** [s.slice(n)] for [n] no larger than the length of [s]. *)
Fixpoint slice (n : nat) (s : string) : string :=
  match n, s with
  | O, _ => s
  | S _, "" => ""
  | S n', String _ s' => slice n' s'
  end.

(** [s.split(sep)] for a one-character separator: never the empty list. *)
Fixpoint split (sep : ascii) (s : string) : list string :=
  match s with
  | "" => [""]
  | String c s' =>
      if Ascii.eqb c sep then "" :: split sep s'
      else match split sep s' with
           | f :: fs => String c f :: fs
           | [] => [String c ""]
           end
  end.

(** [s.endsWith(p)] *)
Fixpoint endsWith (p s : string) : bool :=
  String.eqb p s ||
  match s with
  | "" => false
  | String _ s' => endsWith p s'
  end.

(** [l.join(sep)] *)
Definition join (sep : string) (l : list string) : string := String.concat sep l.

(** [l.pop()]: the last element ([None] for [undefined]) and what is left. *)
Definition pop {A} (l : list A) : option A * list A := (last l, removelast l).

(** ** [Buffer.prototype.toString()]

    The default encoding is UTF-8.  Each chunk is decoded on its own: an
    ill-formed or truncated sequence becomes U+FFFD, one per maximal
    subpart, and decoding resumes at the offending byte. *)

Definition REPLACEMENT : string := String "239" (String "191" (String "189" "")).

Inductive utf8_state :=
| Idle
| Pending (seen : string) (needed : nat) (lower upper : N).

Definition between (lo hi n : N) : bool := ((lo <=? n) && (n <=? hi))%N.

Definition utf8_lead (b : byte) : string * utf8_state :=
  let n := Byte.to_N b in
  let c := String (ascii_of_byte b) "" in
  if (n <=? 127)%N then (c, Idle)
  else if between 194 223 n then ("", Pending c 1 128 191)
  else if between 224 239 n then
    ("", Pending c 2 (if (n =? 224)%N then 160 else 128)
                     (if (n =? 237)%N then 159 else 191))
  else if between 240 244 n then
    ("", Pending c 3 (if (n =? 240)%N then 144 else 128)
                     (if (n =? 244)%N then 143 else 191))
  else (REPLACEMENT, Idle).

Definition utf8_step (st : utf8_state) (b : byte) : string * utf8_state :=
  match st with
  | Idle => utf8_lead b
  | Pending seen needed lower upper =>
      if between lower upper (Byte.to_N b) then
        let seen' := seen +:+ String (ascii_of_byte b) "" in
        match needed with
        | S (S k) => ("", Pending seen' (S k) 128 191)
        | _ => (seen', Idle)
        end
      else
        let '(out, st') := utf8_lead b in (REPLACEMENT +:+ out, st')
  end.

Fixpoint utf8_decode (st : utf8_state) (bs : list byte) : string :=
  match bs with
  | [] => match st with Idle => "" | Pending _ _ _ _ => REPLACEMENT end
  | b :: bs' => let '(out, st') := utf8_step st b in out +:+ utf8_decode st' bs'
  end.

Definition toString (chunk : list byte) : string := utf8_decode Idle chunk.

(** ** JSON values

    What [JSON.parse] returns.  A number is a double; it is represented by
    its [Number.prototype.toString] image, which determines it up to the sign
    of zero, and nothing in the program tells the two zeros apart. *)

Inductive json :=
| JNull
| JBool (b : bool)
| JNum (repr : string)
| JStr (s : string)
| JArr (l : list json)
| JObj (fs : list (string * json)).

(** A JavaScript value read from such data: [None] is [undefined]. *)
Definition value := option json.
Definition undefined : value := None.

(** ToBoolean *)
Definition truthy (v : value) : bool :=
  match v with
  | None | Some JNull => false
  | Some (JBool b) => b
  | Some (JNum r) => negb (String.eqb r "0") && negb (String.eqb r "NaN")
  | Some (JStr s) => negb (String.eqb s "")
  | Some (JArr _) | Some (JObj _) => true
  end.

(** Own properties of an object, in property order. *)
Fixpoint assoc_get {A} (k : string) (fs : list (string * A)) : option A :=
  match fs with
  | [] => None
  | (k', x) :: fs' => if String.eqb k k' then Some x else assoc_get k fs'
  end.

(** [o[k] = x]: an existing property keeps its place, a new one goes last. *)
Fixpoint assoc_set {A} (k : string) (x : A) (fs : list (string * A)) : list (string * A) :=
  match fs with
  | [] => [(k, x)]
  | (k', y) :: fs' =>
      if String.eqb k k' then (k, x) :: fs' else (k', y) :: assoc_set k x fs'
  end.

(** [delete o[k]] *)
Definition assoc_delete {A} (k : string) (fs : list (string * A)) : list (string * A) :=
  filter (fun p => k ≠ fst p) fs.

(** [v.k] for a property name [k] that is neither an index nor a built-in
    of arrays and primitives (the handler reads [choices], [delta],
    [reasoning_content] and [content]); [v] is not [null]. *)
Definition get (k : string) (v : json) : value :=
  match v with
  | JObj fs => assoc_get k fs
  | _ => undefined
  end.

(** How an evaluation ends: with a value, or with an exception that goes
    to the enclosing [catch]. *)
Inductive completion (A : Type) :=
| Normal (a : A)
| Throw.
Arguments Normal {A} a.
Arguments Throw {A}.

(** The conversion to a string that [+] with a string operand performs
    (ToPrimitive, then ToString).  Arrays join their elements with a comma,
    printing [null] as nothing.  A plain object prints as a fixed tag
    through the inherited [toString]; an own property [toString] of a parsed
    object hides it and is not callable, the inherited [valueOf] returns the
    object itself, and the conversion ends in a [TypeError]. *)
Fixpoint ToString (j : json) : completion string :=
  match j with
  | JNull => Normal "null"
  | JBool true => Normal "true"
  | JBool false => Normal "false"
  | JNum r => Normal r
  | JStr s => Normal s
  | JArr l =>
      match
        (fix elements (l : list json) : completion (list string) :=
           match l with
           | [] => Normal []
           | x :: l' =>
               match match x with JNull => Normal "" | _ => ToString x end with
               | Throw => Throw
               | Normal s =>
                   match elements l' with
                   | Throw => Throw
                   | Normal ss => Normal (s :: ss)
                   end
               end
           end) l
      with
      | Throw => Throw
      | Normal ss => Normal (join "," ss)
      end
  | JObj fs =>
      match assoc_get "toString" fs with
      | Some _ => Throw
      | None => Normal "[object Object]"
      end
  end.

Definition ToString_value (v : value) : completion string :=
  match v with
  | None => Normal "undefined"
  | Some j => ToString j
  end.

(** The first character of a non-empty string, as a string. *)
Definition charAt0 (s : string) : string :=
  match s with
  | "" => ""
  | String c _ =>
      let n := N_of_ascii c in
      substring 0 (if (n <? 128)%N then 1 else if (n <? 224)%N then 2
                   else if (n <? 240)%N then 3 else 4) s
  end.

(** [v[0]], [v] not [null]. *)
Definition get0 (v : json) : value :=
  match v with
  | JObj fs => assoc_get "0" fs
  | JArr l => head l
  | JStr s => if String.eqb s "" then undefined else Some (JStr (charAt0 s))
  | _ => undefined
  end.

(** [v.k = x] in sloppy mode: silently nothing on a primitive.  A named
    property put on an array is invisible to [JSON.stringify] and is never
    read back, so the array is left as it is. *)
Definition put (k : string) (x : json) (v : json) : json :=
  match v with
  | JObj fs => JObj (assoc_set k x fs)
  | _ => v
  end.

(** [delete v.k] *)
Definition del (k : string) (v : json) : json :=
  match v with
  | JObj fs => JObj (assoc_delete k fs)
  | _ => v
  end.

(** [v[0] = x] where [v[0]] exists. *)
Definition put0 (x : json) (v : json) : json :=
  match v with
  | JObj fs => JObj (assoc_set "0" x fs)
  | JArr (_ :: l) => JArr (x :: l)
  | _ => v
  end.

(** ** The lorebook data *)

Module Message.
Record t := { role : string; content : string }.
End Message.

(** One value of a lorebook's [entries] object.  [keys] is [None] when the
    field is missing or is not an array; [content] is empty when missing. *)
Module LoreEntry.
Record t := {
  keys : option (list string);
  content : string;
  comment : option string;
  order : option Z;
  case_sensitive : bool
}.
End LoreEntry.

(** One element of [LOREBOOK_DATA]; [entries] lists the properties of the
    [entries] object in property order. *)
Module Lorebook.
Record t := {
  title : string;
  author : string;
  entries : list (string * LoreEntry.t)
}.
End Lorebook.

(** A lorebook file as [JSON.parse] returns it; a field is [None] when it
    is missing. *)
Module LoreFile.
Record t := {
  title : option string;
  author : option string;
  entries : option (list (string * LoreEntry.t))
}.
End LoreFile.

(** What [findRelevantLoreEntries] pushes. *)
Module Relevant.
Record t := {
  content : string;
  comment : string;
  order : Z;
  lorebook : string
}.
End Relevant.

Definition Object_values {A} (o : list (string * A)) : list A := map snd o.

(** *** The two directive patterns

    [/<LOREBOOK:([^>]+)>/gi] and [/<DISABLE_LOREBOOK:([^>]+)>/gi] differ in
    the marker only.  The flag [i] (without [u]) folds the ASCII letters and
    no other character onto them. *)

Definition regex_canonicalize (c : ascii) : ascii :=
  let n := N_of_ascii c in
  if between 97 122 n then ascii_of_N (n - 32) else c.

Fixpoint prefix_ci (p s : string) : bool :=
  match p, s with
  | "", _ => true
  | String _ _, "" => false
  | String a p', String b s' =>
      Ascii.eqb (regex_canonicalize a) (regex_canonicalize b) && prefix_ci p' s'
  end.

(** The text before the first [>] of [s], when there is one. *)
Fixpoint until_gt (s : string) : option string :=
  match s with
  | "" => None
  | String c s' =>
      if Ascii.eqb c ">" then Some "" else option_map (String c) (until_gt s')
  end.

(** The pattern at the head of [s]: the greedy [[^>]+] takes everything up
    to the first [>], and needs one character at least. *)
Definition match_here (marker s : string) : option string :=
  if prefix_ci marker s then
    match until_gt (slice (String.length marker) s) with
    | Some body =>
        if String.eqb body "" then None
        else Some (substring 0 (String.length marker + String.length body + 1) s)
    | None => None
    end
  else None.

(** [s.match(/marker([^>]+)>/gi)]: the matches from left to right, each
    search resuming behind the previous match; [[]] stands for [null]. *)
Fixpoint match_from (marker : string) (skip : nat) (s : string) : list string :=
  match s with
  | "" => []
  | String _ s' =>
      match skip with
      | S k => match_from marker k s'
      | O =>
          match match_here marker s with
          | Some m => m :: match_from marker (String.length m - 1) s'
          | None => match_from marker 0 s'
          end
      end
  end.

Definition match_directives (marker s : string) : list string := match_from marker 0 s.

(** [m.replace(/marker|>/gi, '')] *)
Fixpoint strip_from (marker : string) (skip : nat) (s : string) : string :=
  match s with
  | "" => ""
  | String c s' =>
      match skip with
      | S k => strip_from marker k s'
      | O =>
          if prefix_ci marker s then strip_from marker (String.length marker - 1) s'
          else if Ascii.eqb c ">" then strip_from marker 0 s'
          else String c (strip_from marker 0 s')
      end
  end.

Definition strip_directive (marker m : string) : string := strip_from marker 0 m.

(** *** [Array.prototype.sort]

    The sort is stable (ECMAScript 2019): it is the stable insertion of each
    element, from the right, before the first element it does not exceed. *)

Fixpoint insert_by {A} (cmp : A -> A -> Z) (x : A) (l : list A) : list A :=
  match l with
  | [] => [x]
  | y :: l' => if (cmp x y <=? 0)%Z then x :: y :: l' else y :: insert_by cmp x l'
  end.

Definition sort {A} (cmp : A -> A -> Z) (l : list A) : list A :=
  foldr (insert_by cmp) [] l.

(** *** [loadLorebooks]

    The [lorebooks] directory is [None] when it does not exist; a file
    comes with its name and with what [JSON.parse] makes of it, [None] when
    reading or parsing throws.  The result is [LOREBOOK_DATA]. *)

Definition loadLorebook (file : string * option LoreFile.t) : list Lorebook.t :=
  match snd file with
  | Some data =>
      match LoreFile.entries data with
      | Some entries =>
          [{| Lorebook.title :=
                match LoreFile.title data with
                | Some t => if String.eqb t "" then fst file else t
                | None => fst file
                end;
              Lorebook.author :=
                match LoreFile.author data with
                | Some a => if String.eqb a "" then "Unknown" else a
                | None => "Unknown"
                end;
              Lorebook.entries := entries |}]
      | None => []
      end
  | None => []
  end.

Definition loadLorebooks (ENABLE_LOREBOOK : bool)
    (lorebooksDir : option (list (string * option LoreFile.t))) : list Lorebook.t :=
  if negb ENABLE_LOREBOOK then []
  else
    match lorebooksDir with
    | None => []
    | Some dir =>
        let files := filter (fun file => endsWith ".json" (fst file) = true) dir in
        flat_map loadLorebook files
    end.

(** *** [findRelevantLoreEntries] *)

Section LoreMatcher.
(** [String.prototype.toLowerCase] and [String.prototype.trim]: Unicode
    tables of the platform, of which the matcher needs no property. *)
Variable toLowerCase : string -> string.
Variable trim : string -> string.
(** The process-wide configuration and the sources loaded at start-up. *)
Variable ENABLE_LOREBOOK : bool.
Variable LOREBOOK_DATA : list Lorebook.t.

Definition conversationText (messages : list Message.t) : string :=
  join " " (map Message.content messages).

Definition activationMatches (text : string) : list string :=
  match_directives "<LOREBOOK:" text.

Definition disableMatches (text : string) : list string :=
  match_directives "<DISABLE_LOREBOOK:" text.

Definition activeLorebooks (text : string) : gset string :=
  list_to_set
    (map (fun m => toLowerCase (trim (strip_directive "<LOREBOOK:" m)))
         (activationMatches text)).

Definition disabledLorebooks (text : string) : gset string :=
  list_to_set
    (map (fun m => toLowerCase (trim (strip_directive "<DISABLE_LOREBOOK:" m)))
         (disableMatches text)).

(** [entry.keys.some(keyword => ...)] *)
Definition hasMatch (text lower : string) (entry : LoreEntry.t) (ks : list string) : bool :=
  existsb (fun keyword =>
             let keyLower := toLowerCase keyword in
             if LoreEntry.case_sensitive entry then includes keyword text
             else includes keyLower lower) ks.

Definition relevant (lorebook : Lorebook.t) (entry : LoreEntry.t) : Relevant.t :=
  {| Relevant.content := LoreEntry.content entry;
     Relevant.comment := default "" (LoreEntry.comment entry);
     Relevant.order := default 0%Z (LoreEntry.order entry);
     Relevant.lorebook := Lorebook.title lorebook |}.

(** The body of [Object.values(lorebook.entries).forEach]. *)
Definition pushed_by_entry (text lower : string) (lorebook : Lorebook.t)
    (entry : LoreEntry.t) : list Relevant.t :=
  match LoreEntry.keys entry with
  | None => []
  | Some ks =>
      if hasMatch text lower entry ks && negb (String.eqb (LoreEntry.content entry) "")
      then [relevant lorebook entry]
      else []
  end.

Definition pushed_by_entries (text lower : string) (lorebook : Lorebook.t) : list Relevant.t :=
  flat_map (pushed_by_entry text lower lorebook) (Object_values (Lorebook.entries lorebook)).

(** The body of [LOREBOOK_DATA.forEach]. *)
Definition pushed_by_lorebook (text lower : string) (active disabled : gset string)
    (useAllLorebooks : bool) (lorebook : Lorebook.t) : list Relevant.t :=
  let lorebookTitleLower := toLowerCase (Lorebook.title lorebook) in
  if bool_decide (lorebookTitleLower ∈ disabled) then []
  else if negb useAllLorebooks && negb (bool_decide (lorebookTitleLower ∈ active)) then []
  else pushed_by_entries text lower lorebook.

Definition by_order (a b : Relevant.t) : Z := (Relevant.order a - Relevant.order b)%Z.

Definition findRelevantLoreEntries (messages : list Message.t) : list Relevant.t :=
  if negb ENABLE_LOREBOOK || (length LOREBOOK_DATA =? 0)%nat then []
  else
    let text := conversationText messages in
    let lower := toLowerCase text in
    let active := activeLorebooks text in
    let disabled := disabledLorebooks text in
    let useAllLorebooks := (size active =? 0)%nat in
    let relevantEntries :=
      flat_map (pushed_by_lorebook text lower active disabled useAllLorebooks)
               LOREBOOK_DATA in
    sort by_order relevantEntries.
End LoreMatcher.

(** ** The request mapper *)

(** [a || b] *)
Definition js_or (a : value) (b : json) : json :=
  match a with
  | Some j => if truthy a then j else b
  | None => b
  end.

Module NimRequest.
Record t := {
  model : string;
  messages : list Message.t;
  temperature : json;
  max_tokens : json;
  extra_body : value;
  stream : json
}.
End NimRequest.

(** The object literal [nimRequest]; [temperature], [max_tokens] and
    [stream] are the fields destructured from [req.body]. *)
Definition nimRequest (ENABLE_THINKING_MODE : bool) (nimModel : string)
    (messages : list Message.t) (temperature max_tokens stream : value) : NimRequest.t :=
  {| NimRequest.model := nimModel;
     NimRequest.messages := messages;
     NimRequest.temperature := js_or temperature (JNum "0.6");
     NimRequest.max_tokens := js_or max_tokens (JNum "9024");
     NimRequest.extra_body :=
       if ENABLE_THINKING_MODE
       then Some (JObj [("chat_template_kwargs", JObj [("thinking", JBool true)])])
       else undefined;
     NimRequest.stream := js_or stream (JBool false) |}.

(** ** The streaming handler *)

(** [data.choices?.[0]?.delta]: reading [choices] off [null] throws, and
    each link of the chain stops at [null] or [undefined]. *)
Definition delta_of (data : json) : completion value :=
  match data with
  | JNull => Throw
  | _ =>
      Normal
        match get "choices" data with
        | None | Some JNull => undefined
        | Some choices =>
            match get0 choices with
            | None | Some JNull => undefined
            | Some choice => get "delta" choice
            end
        end
  end.

(** The object [data.choices[0].delta] is changed in place: [data] is the
    same tree with [f] applied at that position. *)
Definition update_delta (f : json -> json) (data : json) : json :=
  match get "choices" data with
  | Some choices =>
      match get0 choices with
      | Some choice =>
          match get "delta" choice with
          | Some delta => put "choices" (put0 (put "delta" (f delta) choice) choices) data
          | None => data
          end
      | None => data
      end
  | None => data
  end.

Definition think_open : string := "<think>" +:+ nl.
Definition think_close : string := "</think>" +:+ nl +:+ nl.

(** The [SHOW_REASONING] branch up to the test of [combinedContent]: the
    value of [reasoningStarted] when the branch is left, and the value of
    [combinedContent] or the exception that ended the branch.  Both [+=] are
    concatenations: the right operand of the first is a string, and the
    second is reached only with [combinedContent] still the empty string.
    A concatenation that throws leaves [reasoningStarted] as the
    assignments before it have set it: the one of the first [if] comes after
    its concatenation, the one of the second [if] too. *)
Definition combine (reasoningStarted : bool) (reasoning content : value)
  : bool * completion json :=
  let '(reasoningStarted, combinedContent) :=
    if truthy reasoning && negb reasoningStarted
    then
      match ToString_value reasoning with
      | Normal r => (true, Normal (JStr (think_open +:+ r)))
      | Throw => (reasoningStarted, Throw)
      end
    else if truthy reasoning then (reasoningStarted, Normal (default (JStr "") reasoning))
    else (reasoningStarted, Normal (JStr "")) in
  match combinedContent with
  | Throw => (reasoningStarted, Throw)
  | Normal combinedContent =>
      if truthy content && reasoningStarted
      then
        match ToString_value content, ToString combinedContent with
        | Normal c, Normal cc => (false, Normal (JStr (cc +:+ (think_close +:+ c))))
        | _, _ => (reasoningStarted, Throw)
        end
      else if truthy content
      then
        match ToString combinedContent, ToString_value content with
        | Normal cc, Normal c => (reasoningStarted, Normal (JStr (cc +:+ c)))
        | _, _ => (reasoningStarted, Throw)
        end
      else (reasoningStarted, Normal combinedContent)
  end.

(** What the handler does to a delta, in each display mode: the value of
    [reasoningStarted] afterwards, and the delta as it is then, or the
    exception. *)
Definition reshape_delta (SHOW_REASONING reasoningStarted : bool) (delta : json)
  : bool * completion json :=
  let reasoning := get "reasoning_content" delta in
  let content := get "content" delta in
  if SHOW_REASONING then
    match combine reasoningStarted reasoning content with
    | (reasoningStarted', Throw) => (reasoningStarted', Throw)
    | (reasoningStarted', Normal combinedContent) =>
        if truthy (Some combinedContent)
        then (reasoningStarted',
              Normal (del "reasoning_content" (put "content" combinedContent delta)))
        else (reasoningStarted', Normal delta)
    end
  else
    (reasoningStarted,
     Normal
       (del "reasoning_content"
            (put "content" (if truthy content then default (JStr "") content else JStr "")
                 delta))).

(** The body of the [try] between [JSON.parse] and [res.write]: the value of
    [reasoningStarted] when it is left, and [data] as it is then, or the
    exception that goes to the [catch]. *)
Definition reshape (SHOW_REASONING reasoningStarted : bool) (data : json)
  : bool * completion json :=
  match delta_of data with
  | Throw => (reasoningStarted, Throw)
  | Normal d =>
      match d with
      | Some delta =>
          if truthy d then
            match reshape_delta SHOW_REASONING reasoningStarted delta with
            | (rs, Normal delta') => (rs, Normal (update_delta (fun _ => delta') data))
            | (rs, Throw) => (rs, Throw)
            end
          else (reasoningStarted, Normal data)
      | None => (reasoningStarted, Normal data)
      end
  end.

Record stream_state := {
  buffer : string;
  reasoningStarted : bool
}.

Section StreamHandler.
(** [JSON.parse] ([None] when it throws) and [JSON.stringify]. *)
Variable JSON_parse : string -> option json.
Variable JSON_stringify : json -> string.
Variable SHOW_REASONING : bool.

(** The body of [lines.forEach]: the new [reasoningStarted] and the
    arguments of the calls of [res.write]. *)
Definition on_line (reasoningStarted : bool) (line : string) : bool * list string :=
  if startsWith "data: " line then
    if includes "[DONE]" line then (reasoningStarted, [line +:+ nl])
    else
      match JSON_parse (slice 6 line) with
      | None => (reasoningStarted, [line +:+ nl])
      | Some data =>
          match reshape SHOW_REASONING reasoningStarted data with
          | (rs, Throw) => (rs, [line +:+ nl])
          | (rs, Normal data') =>
              (rs, ["data: " +:+ JSON_stringify data' +:+ nl +:+ nl])
          end
      end
  else (reasoningStarted, []).

Fixpoint forEach_line (reasoningStarted : bool) (lines : list string) : bool * list string :=
  match lines with
  | [] => (reasoningStarted, [])
  | line :: lines' =>
      let '(rs, out) := on_line reasoningStarted line in
      let '(rs', out') := forEach_line rs lines' in
      (rs', (out ++ out')%list)
  end.

(** The handler on the decoded text of a chunk. *)
Definition on_text (st : stream_state) (text : string) : stream_state * list string :=
  let buffer := buffer st +:+ text in
  let '(last, lines) := pop (split LF buffer) in
  let buffer := default "" last in
  let '(rs, out) := forEach_line (reasoningStarted st) lines in
  ({| buffer := buffer; reasoningStarted := rs |}, out).

(** [response.data.on('data', chunk => ...)] *)
Definition on_data (st : stream_state) (chunk : list byte) : stream_state * list string :=
  on_text st (toString chunk).

(** The handler over the chunks of a response, from a given state. *)
Fixpoint on_chunks (st : stream_state) (chunks : list (list byte))
  : stream_state * list string :=
  match chunks with
  | [] => (st, [])
  | chunk :: chunks' =>
      let '(st', out) := on_data st chunk in
      let '(st'', out') := on_chunks st' chunks' in
      (st'', (out ++ out')%list)
  end.

Fixpoint on_texts (st : stream_state) (texts : list string) : stream_state * list string :=
  match texts with
  | [] => (st, [])
  | text :: texts' =>
      let '(st', out) := on_text st text in
      let '(st'', out') := on_texts st' texts' in
      (st'', (out ++ out')%list)
  end.
End StreamHandler.

(** [let buffer = ''; let reasoningStarted = false;] *)
Definition initial : stream_state := {| buffer := ""; reasoningStarted := false |}.

(** ** The context injector *)

(** [l.findIndex(p)]: [None] stands for [-1]. *)
Fixpoint findIndex {A} (p : A -> bool) (l : list A) : option nat :=
  match l with
  | [] => None
  | x :: l' => if p x then Some O else option_map S (findIndex p l')
  end.

(** [m.content += '\n\n[Lorebook Context]\n' + lorebookContext] *)
Definition append_context (lorebookContext : string) (m : Message.t) : Message.t :=
  {| Message.role := Message.role m;
     Message.content :=
       Message.content m +:+ (nl +:+ nl +:+ "[Lorebook Context]" +:+ nl +:+ lorebookContext) |}.

Definition context_message (lorebookContext : string) : Message.t :=
  {| Message.role := "system";
     Message.content := "[Lorebook Context]" +:+ nl +:+ lorebookContext |}.

Section Injector.
Variable toLowerCase : string -> string.
Variable trim : string -> string.
Variable ENABLE_LOREBOOK : bool.
Variable LOREBOOK_DATA : list Lorebook.t.

(** [injectLorebook]: the array is changed in place and returned; the value
    here is the array as it is afterwards. *)
Definition injectLorebook (messages : list Message.t) : list Message.t :=
  if negb ENABLE_LOREBOOK then messages
  else
    let relevantEntries :=
      findRelevantLoreEntries toLowerCase trim ENABLE_LOREBOOK LOREBOOK_DATA messages in
    if (length relevantEntries =? 0)%nat then messages
    else
      let lorebookContext := join (nl +:+ nl) (map Relevant.content relevantEntries) in
      let systemMessageIndex :=
        findIndex (fun m => String.eqb (Message.role m) "system") messages in
      match systemMessageIndex with
      | Some i => alter (append_context lorebookContext) i messages
      | None => context_message lorebookContext :: messages
      end.
End Injector.

(** ** Model selection *)

Definition MODEL_MAPPING : list (string * string) :=
  [("gpt-3.5-turbo", "meta/llama-3.1-8b-instruct");
   ("gpt-4", "deepseek-ai/deepseek-v3.1-terminus");
   ("gpt-4-turbo", "xai/grok-4-0709");
   ("gpt-4o", "deepseek-ai/deepseek-v3.1");
   ("claude-3-opus", "meta/llama-3.1-405b-instruct");
   ("claude-3-sonnet", "meta/llama-3.1-70b-instruct");
   ("gemini-pro", "mistralai/mistral-large-2-instruct")].

(** The members an object literal inherits from [Object.prototype]: all of
    them functions, but [__proto__], which is an object. *)
Definition Object_prototype : list string :=
  ["constructor"; "__defineGetter__"; "__defineSetter__"; "hasOwnProperty";
   "__lookupGetter__"; "__lookupSetter__"; "isPrototypeOf"; "propertyIsEnumerable";
   "toString"; "valueOf"; "__proto__"; "toLocaleString"].

(** What [MODEL_MAPPING[model]] evaluates to. *)
Inductive looked_up :=
| Own (id : string)
| Inherited
| Missing.

Definition MODEL_MAPPING_get (model : string) : looked_up :=
  match assoc_get model MODEL_MAPPING with
  | Some id => Own id
  | None => if existsb (String.eqb model) Object_prototype then Inherited else Missing
  end.

(** Whether the probe request set [nimModel]: the promise resolves below
    status 500 and the callback wants a status from 200 to 299; [None] is a
    request that threw. *)
Definition probe_accepts (status : option Z) : bool :=
  match status with
  | Some s => (200 <=? s)%Z && (s <? 300)%Z
  | None => false
  end.

Section ModelSelection.
Variable toLowerCase : string -> string.
(** The status the backend answers the probe for a model with. *)
Variable probe : string -> option Z.

(** The chain of [if]s on [modelLower]. *)
Definition fallback_model (model : string) : string :=
  let modelLower := toLowerCase model in
  if includes "gpt-4" modelLower || includes "claude-opus" modelLower
     || includes "405b" modelLower
  then "meta/llama-3.1-405b-instruct"
  else if includes "claude" modelLower || includes "gemini" modelLower
          || includes "70b" modelLower
  then "meta/llama-3.1-70b-instruct"
  else "meta/llama-3.1-8b-instruct".

(** The value of [nimModel] when the request is built; [None] when it is
    not a string but a member inherited from [Object.prototype]. *)
Definition select_model (model : string) : option string :=
  let probed (nimModel : string) : string :=
    let nimModel := if probe_accepts (probe model) then model else nimModel in
    if String.eqb nimModel "" then fallback_model model else nimModel in
  match MODEL_MAPPING_get model with
  | Own id => Some (if String.eqb id "" then probed "" else id)
  | Inherited => None
  | Missing => Some (probed "")
  end.
End ModelSelection.

(** The ids [GET /v1/models] lists. *)
Definition listed_models : list string := map fst MODEL_MAPPING.

(** ** The response that is not streamed *)

Module Choice.
Record t := {
  index : value;
  role : value;
  content : json;
  finish_reason : value
}.
End Choice.

Module ChatCompletion.
Record t := {
  id : string;
  object : string;
  created : N;
  model : string;
  choices : list Choice.t;
  usage : json
}.
End ChatCompletion.

(** The callback of [response.data.choices.map]: [choice.message?.content]
    reads through a missing message, [choice.message.role] does not, and the
    concatenation of the reasoning display throws when one of its operands
    has no conversion to a string. *)
Definition map_choice (SHOW_REASONING : bool) (choice : json) : completion Choice.t :=
  match choice with
  | JNull => Throw
  | _ =>
      match get "message" choice with
      | None | Some JNull => Throw
      | Some message =>
          let fullContent := js_or (get "content" message) (JStr "") in
          let reasoning_content := get "reasoning_content" message in
          let fullContent :=
            if SHOW_REASONING && truthy reasoning_content
            then
              match ToString_value reasoning_content, ToString fullContent with
              | Normal r, Normal c =>
                  Normal (JStr (think_open +:+ r +:+ (nl +:+ think_close) +:+ c))
              | _, _ => Throw
              end
            else Normal fullContent in
          match fullContent with
          | Throw => Throw
          | Normal fullContent =>
              Normal {| Choice.index := get "index" choice;
                        Choice.role := get "role" message;
                        Choice.content := fullContent;
                        Choice.finish_reason := get "finish_reason" choice |}
          end
      end
  end.

Fixpoint map_choices (SHOW_REASONING : bool) (choices : list json)
  : completion (list Choice.t) :=
  match choices with
  | [] => Normal []
  | choice :: choices' =>
      match map_choice SHOW_REASONING choice with
      | Throw => Throw
      | Normal c =>
          match map_choices SHOW_REASONING choices' with
          | Throw => Throw
          | Normal cs => Normal (c :: cs)
          end
      end
  end.

Definition decimal (n : N) : string := NilZero.string_of_uint (N.to_uint n).

(** The object literal [openaiResponse], for [Date.now()] equal to [now] and
    [response.data] equal to [data]; [Throw] sends the request to the
    handler's [catch]. *)
Definition openaiResponse (SHOW_REASONING : bool) (now : N) (model : string) (data : json)
  : completion ChatCompletion.t :=
  match data with
  | JNull => Throw
  | _ =>
      match get "choices" data with
      | Some (JArr choices) =>
          match map_choices SHOW_REASONING choices with
          | Throw => Throw
          | Normal cs =>
              Normal {| ChatCompletion.id := "chatcmpl-" +:+ decimal now;
                        ChatCompletion.object := "chat.completion";
                        ChatCompletion.created := (now / 1000)%N;
                        ChatCompletion.model := model;
                        ChatCompletion.choices := cs;
                        ChatCompletion.usage :=
                          js_or (get "usage" data)
                                (JObj [("prompt_tokens", JNum "0");
                                       ("completion_tokens", JNum "0");
                                       ("total_tokens", JNum "0")]) |}
          end
      | _ => Throw
      end
  end.

(** ** The end of the stream *)

(** [response.data.on('end', () => res.end())] and the [error] handler
    alike: nothing more is written, whatever the buffer holds. *)
Definition on_end (st : stream_state) : list string := [].

(** Everything written for a response that arrives in [chunks]. *)
Definition response_writes (JSON_parse : string -> option json)
    (JSON_stringify : json -> string) (SHOW_REASONING : bool)
    (chunks : list (list byte)) : list string :=
  let '(st, out) := on_chunks JSON_parse JSON_stringify SHOW_REASONING initial chunks in
  (out ++ on_end st)%list.

(** * The vocabulary of the statements *)

(** ** Lines and fragments *)

(** What [lines.pop()] leaves, and what it returns, on a buffer. *)
Definition complete_lines (s : string) : list string := removelast (split LF s).
Definition fragment (s : string) : string := default "" (last (split LF s)).

(** Between chunks the buffer holds no line separator. *)
Definition settled (st : stream_state) : Prop :=
  complete_lines (buffer st) = [] /\ fragment (buffer st) = buffer st.

(** The decoder state a chunk ends in, and what it has put out by then. *)
Fixpoint utf8_end (st : utf8_state) (bs : list byte) : utf8_state :=
  match bs with
  | [] => st
  | b :: bs' => utf8_end (snd (utf8_step st b)) bs'
  end.

Fixpoint utf8_out (st : utf8_state) (bs : list byte) : string :=
  match bs with
  | [] => ""
  | b :: bs' => fst (utf8_step st b) +:+ utf8_out (snd (utf8_step st b)) bs'
  end.

(** ** Events and their fields *)

(** The content field and the reasoning field of the delta of a payload. *)
Definition emitted_content (data : json) : value :=
  match delta_of data with
  | Normal (Some delta) => get "content" delta
  | _ => undefined
  end.

Definition emitted_reasoning (data : json) : value :=
  match delta_of data with
  | Normal (Some delta) => get "reasoning_content" delta
  | _ => undefined
  end.

(** A candidate line that is not the terminator and whose payload decodes. *)
Definition decodes_to (JSON_parse : string -> option json) (line : string) (data : json) : Prop :=
  startsWith "data: " line = true /\
  includes "[DONE]" line = false /\
  JSON_parse (slice 6 line) = Some data.


(** What [res.write] receives for a line, given how its [try] block ended. *)
Definition written (JSON_stringify : json -> string) (line : string) (c : completion json)
  : string :=
  match c with
  | Normal data' => "data: " +:+ JSON_stringify data' +:+ nl +:+ nl
  | Throw => line +:+ nl
  end.

Definition dq : string := String "034"%char "".
Definition quoted (s : string) : string := dq +:+ s +:+ dq.

(** The event [{"choices":[{"delta":delta}]}]. *)
Definition event (delta : json) : json :=
  JObj [("choices", JArr [JObj [("delta", delta)]])].

Definition reasoning_delta (s : string) : json := JObj [("reasoning_content", JStr s)].
Definition content_delta (s : string) : json := JObj [("content", JStr s)].

(** The text [{"choices":[{"delta":{"content":"s"}}]}], for [s] free of
    characters that JSON escapes. *)
Definition content_payload (s : string) : string :=
  "{" +:+ quoted "choices" +:+ ":[{" +:+ quoted "delta" +:+ ":{" +:+
  quoted "content" +:+ ":" +:+ quoted s +:+ "}}]}".

Definition reasoning_payload (s : string) : string :=
  "{" +:+ quoted "choices" +:+ ":[{" +:+ quoted "delta" +:+ ":{" +:+
  quoted "reasoning_content" +:+ ":" +:+ quoted s +:+ "}}]}".

Definition reasoning_line (s : string) : string := "data: " +:+ reasoning_payload s.

(** U+00E9 in UTF-8. *)
Definition e_acute : string := String "195"%char (String "169"%char "").

(** The stream [data: {"choices":[{"delta":{"content":"é"}}]}\n\n]; byte 39
    and byte 40 are the two bytes of the accented letter. *)
Definition accented_stream : list byte :=
  list_byte_of_string ("data: " +:+ content_payload e_acute +:+ nl +:+ nl).

(** What [JSON.parse] returns on the listed texts, and [JSON.stringify] on
    events that carry a content text free of escapes. *)
Definition parse_table (table : list (string * json)) (s : string) : option json :=
  assoc_get s table.

Definition stringify_content (data : json) : string :=
  match emitted_content data with
  | Some (JStr s) => content_payload s
  | _ => "null"
  end.

Definition accented_table : list (string * json) :=
  [(content_payload e_acute, event (content_delta e_acute));
   (content_payload (REPLACEMENT +:+ REPLACEMENT),
    event (content_delta (REPLACEMENT +:+ REPLACEMENT)))].

Definition reasoning_table (s : string) : list (string * json) :=
  [(reasoning_payload s, event (reasoning_delta s))].



(** An event with fields besides the two channels of its delta, and a
    second choice; the text it is parsed from. *)
Definition framed_delta : list (string * json) :=
  [("role", JStr "assistant"); ("reasoning_content", JStr "r")].

Definition framed_event : json :=
  JObj [("id", JStr "cmpl-1");
        ("choices",
         JArr [JObj [("index", JNum "0"); ("delta", JObj framed_delta);
                     ("finish_reason", JNull)];
               JObj [("index", JNum "1");
                     ("delta", JObj [("reasoning_content", JStr "s")])]]);
        ("model", JStr "m")].

Definition framed_payload : string :=
  "{" +:+ quoted "id" +:+ ":" +:+ quoted "cmpl-1" +:+ "," +:+ quoted "choices" +:+ ":[{" +:+
  quoted "index" +:+ ":0," +:+ quoted "delta" +:+ ":{" +:+ quoted "role" +:+ ":" +:+
  quoted "assistant" +:+ "," +:+ quoted "reasoning_content" +:+ ":" +:+ quoted "r" +:+ "}," +:+
  quoted "finish_reason" +:+ ":null},{" +:+ quoted "index" +:+ ":1," +:+ quoted "delta" +:+
  ":{" +:+ quoted "reasoning_content" +:+ ":" +:+ quoted "s" +:+ "}}]," +:+
  quoted "model" +:+ ":" +:+ quoted "m" +:+ "}".

(** A delta with a reasoning text and a content that is an object with a
    member named [toString]; the text it is parsed from. *)
Definition unconvertible_delta : list (string * json) :=
  [("reasoning_content", JStr "r"); ("content", JObj [("toString", JNum "1")])].

Definition unconvertible_payload : string :=
  "{" +:+ quoted "choices" +:+ ":[{" +:+ quoted "delta" +:+ ":{" +:+
  quoted "reasoning_content" +:+ ":" +:+ quoted "r" +:+ "," +:+ quoted "content" +:+ ":{" +:+
  quoted "toString" +:+ ":1}}}]}".

(** ** Sorting *)

(** The comparator [(a, b) => key(a) - key(b)] and the order it sorts by. *)
Definition by_key {A} (key : A -> Z) (a b : A) : Z := (key a - key b)%Z.
Definition key_le {A} (key : A -> Z) (a b : A) : Prop := (key a <= key b)%Z.

(** ** ASCII conversations *)

(** The two string primitives on ASCII text, to run the matcher on ASCII
    conversations. *)
Definition ascii_lower (c : ascii) : ascii :=
  let n := N_of_ascii c in
  if between 65 90 n then ascii_of_N (n + 32) else c.

Fixpoint ascii_toLowerCase (s : string) : string :=
  match s with
  | "" => ""
  | String c s' => String (ascii_lower c) (ascii_toLowerCase s')
  end.

Definition ascii_space (c : ascii) : bool :=
  let n := N_of_ascii c in between 9 13 n || (n =? 32)%N.

Fixpoint trim_start (s : string) : string :=
  match s with
  | "" => ""
  | String c s' => if ascii_space c then trim_start s' else s
  end.

Fixpoint trim_end (s : string) : string :=
  match s with
  | "" => ""
  | String c s' =>
      match trim_end s' with
      | "" => if ascii_space c then "" else String c ""
      | t => String c t
      end
  end.

Definition ascii_trim (s : string) : string := trim_end (trim_start s).

(** Two lorebook files and what a conversation is made of. *)
Definition entry (key content : string) (order : Z) : LoreEntry.t :=
  {| LoreEntry.keys := Some [key];
     LoreEntry.content := content;
     LoreEntry.comment := None;
     LoreEntry.order := Some order;
     LoreEntry.case_sensitive := false |}.

Definition user (content : string) : Message.t :=
  {| Message.role := "user"; Message.content := content |}.

Definition atlas_json : LoreFile.t :=
  {| LoreFile.title := Some "Atlas";
     LoreFile.author := None;
     LoreFile.entries := Some [("0", entry "harbour" "The harbour freezes in winter." 5);
                               ("1", entry "tower" "The tower has no door." 0)] |}.

Definition bestiary_json : LoreFile.t :=
  {| LoreFile.title := Some "Bestiary";
     LoreFile.author := None;
     LoreFile.entries := Some [("0", entry "gull" "Gulls nest on the tower." 5)] |}.

Definition blank_json : LoreFile.t :=
  {| LoreFile.title := Some "Blank";
     LoreFile.author := None;
     LoreFile.entries := Some [("0", entry "gull" "" 0)] |}.

Definition atlas : Lorebook.t :=
  {| Lorebook.title := "Atlas";
     Lorebook.author := "Unknown";
     Lorebook.entries := [("0", entry "harbour" "The harbour freezes in winter." 5);
                          ("1", entry "tower" "The tower has no door." 0)] |}.

Definition bestiary : Lorebook.t :=
  {| Lorebook.title := "Bestiary";
     Lorebook.author := "Unknown";
     Lorebook.entries := [("0", entry "gull" "Gulls nest on the tower." 5)] |}.

(** A lorebook file whose title ends in a space, and the lorebook loaded
    from it. *)
Definition padded_atlas_json : LoreFile.t :=
  {| LoreFile.title := Some "Atlas ";
     LoreFile.author := None;
     LoreFile.entries := Some [("0", entry "harbour" "The harbour freezes in winter." 5)] |}.

Definition padded_atlas : Lorebook.t :=
  {| Lorebook.title := "Atlas ";
     Lorebook.author := "Unknown";
     Lorebook.entries := [("0", entry "harbour" "The harbour freezes in winter." 5)] |}.

(** ** More vocabulary *)

(** The first choice of a payload and a field of it. *)
Definition first_choice (data : json) : value :=
  match get "choices" data with
  | Some choices => get0 choices
  | None => undefined
  end.

Definition choice_field (k : string) (data : json) : value :=
  match first_choice data with
  | Some choice => get k choice
  | None => undefined
  end.

(** A value that a concatenation with a string can turn into text. *)
Definition convertible (v : value) : bool :=
  match ToString_value v with
  | Normal _ => true
  | Throw => false
  end.


(** A message list without its first system message. *)
Definition is_system (m : Message.t) : bool := String.eqb (Message.role m) "system".

Fixpoint remove_first_system (l : list Message.t) : list Message.t :=
  match l with
  | [] => []
  | m :: l' => if is_system m then l' else m :: remove_first_system l'
  end.

(** The block [injectLorebook] adds for a list of matched entries. *)
Definition lorebookContext (relevantEntries : list Relevant.t) : string :=
  join (nl +:+ nl) (map Relevant.content relevantEntries).

(** Line 281: [responseType: stream ? 'stream' : 'json']. *)
Definition responseType (stream : value) : string :=
  if truthy stream then "stream" else "json".

(** A text in which a character does not occur. *)
Fixpoint lacks (c : ascii) (s : string) : bool :=
  match s with
  | "" => true
  | String x s' => negb (Ascii.eqb x c) && lacks c s'
  end.

(** [mk] is the marker [marker] in some mix of upper and lower case. *)
Definition spelling_of (marker mk : string) : Prop :=
  prefix_ci marker mk = true /\ String.length mk = String.length marker.

(** A choice whose [message] can be read. *)
Definition has_message (choice : json) : bool :=
  match get "message" choice with
  | None | Some JNull => false
  | Some _ => true
  end.

(** A choice whose reasoning display, where there is a reasoning to show,
    concatenates values that have a conversion to text. *)
Definition displays (choice : json) : bool :=
  match get "message" choice with
  | Some message =>
      negb (truthy (get "reasoning_content" message)) ||
      (convertible (get "reasoning_content" message) &&
       convertible (Some (js_or (get "content" message) (JStr ""))))
  | None => true
  end.

(** The backend models the chain of [if]s on the lowered name can give. *)
Definition fallbacks : list string :=
  ["meta/llama-3.1-405b-instruct"; "meta/llama-3.1-70b-instruct";
   "meta/llama-3.1-8b-instruct"].

Definition system (content : string) : Message.t :=
  {| Message.role := "system"; Message.content := content |}.

(** * Properties *)

(** ** Lines and the carried fragment *)

Lemma split_not_nil sep s : split sep s <> [].
Proof.
  destruct s as [|c s]; simpl; [discriminate|].
  destruct (Ascii.eqb c sep); [discriminate|].
  destruct (split sep s); discriminate.
Qed.

Lemma append_cons c (a b : string) : String c a +:+ b = String c (a +:+ b).
Proof. reflexivity. Qed.

Lemma append_assoc (a b c : string) : (a +:+ b) +:+ c = a +:+ (b +:+ c).
Proof.
  induction a as [|x a IH]; [reflexivity|].
  now rewrite !append_cons, IH.
Qed.

Lemma append_nil_r (a : string) : a +:+ "" = a.
Proof.
  induction a as [|x a IH]; [reflexivity|].
  now rewrite append_cons, IH.
Qed.

Lemma complete_lines_cons c s :
  complete_lines (String c s) =
  if Ascii.eqb c LF then "" :: complete_lines s
  else match complete_lines s with
       | [] => []
       | f :: fs => String c f :: fs
       end.
Proof.
  unfold complete_lines. simpl.
  pose proof (split_not_nil LF s) as Hne.
  destruct (Ascii.eqb c LF).
  - destruct (split LF s); [contradiction | reflexivity].
  - destruct (split LF s) as [|f [|g fs]]; [contradiction | reflexivity | reflexivity].
Qed.

Lemma fragment_cons c s :
  fragment (String c s) =
  if Ascii.eqb c LF then fragment s
  else match complete_lines s with
       | [] => String c (fragment s)
       | _ :: _ => fragment s
       end.
Proof.
  unfold fragment, complete_lines. simpl.
  pose proof (split_not_nil LF s) as Hne.
  destruct (Ascii.eqb c LF).
  - destruct (split LF s); [contradiction | reflexivity].
  - destruct (split LF s) as [|f [|g fs]]; [contradiction | reflexivity | reflexivity].
Qed.

(** The fragment after the last separator is all that a later chunk can
    still change: the lines cut from [a +:+ b] are the lines cut from [a],
    then the lines cut from what [a] left behind followed by [b]. *)
Lemma cut_app a b :
  complete_lines (a +:+ b) = (complete_lines a ++ complete_lines (fragment a +:+ b))%list /\
  fragment (a +:+ b) = fragment (fragment a +:+ b).
Proof.
  induction a as [|c a [IHl IHf]]; [split; reflexivity|].
  rewrite append_cons, !complete_lines_cons, !fragment_cons.
  destruct (Ascii.eqb c LF) eqn:Hc.
  - rewrite IHl, IHf. split; reflexivity.
  - destruct (complete_lines a) as [|f fs] eqn:Ha.
    + rewrite append_cons, complete_lines_cons, fragment_cons, Hc.
      simpl in IHl. rewrite IHl, IHf. split; reflexivity.
    + rewrite IHl, IHf. split; reflexivity.
Qed.

(** The carried fragment holds no separator. *)
Lemma complete_lines_fragment s : complete_lines (fragment s) = [] /\ fragment (fragment s) = fragment s.
Proof.
  induction s as [|c s [IHl IHf]]; [split; reflexivity|].
  rewrite fragment_cons.
  destruct (Ascii.eqb c LF) eqn:Hc; [split; assumption|].
  destruct (complete_lines s); [|split; assumption].
  rewrite complete_lines_cons, fragment_cons, Hc, IHl, IHf. split; reflexivity.
Qed.

Section StreamFacts.
Variable JSON_parse : string -> option json.
Variable JSON_stringify : json -> string.
Variable SHOW_REASONING : bool.

Local Abbreviation on_line := (on_line JSON_parse JSON_stringify SHOW_REASONING).
Local Abbreviation forEach_line := (forEach_line JSON_parse JSON_stringify SHOW_REASONING).
Local Abbreviation on_text := (on_text JSON_parse JSON_stringify SHOW_REASONING).
Local Abbreviation on_texts := (on_texts JSON_parse JSON_stringify SHOW_REASONING).
Local Abbreviation on_data := (on_data JSON_parse JSON_stringify SHOW_REASONING).
Local Abbreviation on_chunks := (on_chunks JSON_parse JSON_stringify SHOW_REASONING).

Lemma forEach_line_app rs l1 l2 :
  forEach_line rs (l1 ++ l2) =
  (fst (forEach_line (fst (forEach_line rs l1)) l2),
   (snd (forEach_line rs l1) ++ snd (forEach_line (fst (forEach_line rs l1)) l2))%list).
Proof.
  revert rs. induction l1 as [|l l1 IH]; intros rs; simpl.
  - now destruct (forEach_line rs l2).
  - destruct (on_line rs l) as [rs1 o1]. rewrite IH.
    destruct (forEach_line rs1 l1) as [rs2 o2]. simpl.
    destruct (forEach_line rs2 l2) as [rs3 o3]. simpl.
    now rewrite app_assoc.
Qed.

Lemma on_text_eq st text :
  on_text st text =
  ({| buffer := fragment (buffer st +:+ text);
      reasoningStarted :=
        fst (forEach_line (reasoningStarted st) (complete_lines (buffer st +:+ text))) |},
   snd (forEach_line (reasoningStarted st) (complete_lines (buffer st +:+ text)))).
Proof.
  unfold on_text, pop, fragment, complete_lines.
  now destruct (forEach_line _ _).
Qed.

(** A chunk of text may be cut anywhere: the handler writes the same, and
    ends in the same state, on [a] then [b] as on [a +:+ b]. *)
Lemma on_text_app st a b :
  on_texts st [a +:+ b] = on_texts st [a; b].
Proof.
  simpl. rewrite !on_text_eq. simpl.
  rewrite <- append_assoc.
  destruct (cut_app (buffer st +:+ a) b) as [Hl Hf].
  rewrite Hl, Hf, forEach_line_app. simpl.
  now rewrite !app_nil_r.
Qed.

Lemma on_text_settled st text : settled (fst (on_text st text)).
Proof. rewrite on_text_eq. apply complete_lines_fragment. Qed.

Lemma on_text_nil st : settled st -> on_text st "" = (st, []).
Proof.
  intros [Hl Hf]. rewrite on_text_eq, append_nil_r, Hl, Hf.
  now destruct st.
Qed.

(** However a text is cut into chunks, the handler behaves as on the
    whole text in one chunk. *)
Lemma on_texts_concat st texts :
  settled st -> on_texts st texts = on_text st (String.concat "" texts).
Proof.
  revert st. induction texts as [|t texts IH]; intros st Hst.
  - simpl. now rewrite on_text_nil.
  - assert (Hcat : String.concat "" (t :: texts) = t +:+ String.concat "" texts).
    { destruct texts; simpl; [now rewrite append_nil_r | reflexivity]. }
    rewrite Hcat.
    pose proof (on_text_app st t (String.concat "" texts)) as Happ.
    simpl in Happ.
    destruct (on_text st (t +:+ String.concat "" texts)) as [stw ow] eqn:Hw.
    simpl. pose proof (on_text_settled st t) as Hs1.
    destruct (on_text st t) as [st1 o1] eqn:H1. simpl in Hs1.
    rewrite (IH st1 Hs1).
    destruct (on_text st1 (String.concat "" texts)) as [st2 o2].
    rewrite !app_nil_r in Happ. now inversion Happ.
Qed.

Theorem text_split_invariant texts1 texts2 :
  String.concat "" texts1 = String.concat "" texts2 ->
  on_texts initial texts1 = on_texts initial texts2.
Proof.
  intros H. rewrite !on_texts_concat, H; [reflexivity | split; reflexivity ..].
Qed.
End StreamFacts.

(** ** Decoding at character boundaries *)

Lemma utf8_decode_app st a b :
  utf8_decode st (a ++ b) = utf8_out st a +:+ utf8_decode (utf8_end st a) b.
Proof.
  revert st. induction a as [|x a IH]; intros st; [reflexivity|].
  simpl. destruct (utf8_step st x) as [out st']. simpl.
  now rewrite IH, append_assoc.
Qed.

Lemma utf8_decode_out st a :
  utf8_end st a = Idle -> utf8_decode st a = utf8_out st a.
Proof.
  intros H. rewrite <- (app_nil_r a) at 1.
  now rewrite utf8_decode_app, H, append_nil_r.
Qed.

(** A chunk that ends between two characters decodes on its own. *)
Lemma toString_app a b :
  utf8_end Idle a = Idle -> toString (a ++ b) = toString a +:+ toString b.
Proof.
  intros H. unfold toString.
  now rewrite utf8_decode_app, H, (utf8_decode_out _ _ H).
Qed.

Lemma toString_concat chunks :
  Forall (fun c => utf8_end Idle c = Idle) chunks ->
  toString (concat chunks) = String.concat "" (map toString chunks).
Proof.
  induction 1 as [|c chunks Hc _ IH]; [reflexivity|].
  simpl concat. rewrite toString_app, IH by assumption.
  destruct chunks; simpl; [now rewrite append_nil_r | reflexivity].
Qed.

Section ChunkFacts.
Variable JSON_parse : string -> option json.
Variable JSON_stringify : json -> string.
Variable SHOW_REASONING : bool.

Lemma on_chunks_texts st chunks :
  on_chunks JSON_parse JSON_stringify SHOW_REASONING st chunks =
  on_texts JSON_parse JSON_stringify SHOW_REASONING st (map toString chunks).
Proof.
  revert st. induction chunks as [|c chunks IH]; intros st; [reflexivity|].
  simpl. unfold on_data.
  destruct (on_text _ _ _ st (toString c)) as [st' out].
  now rewrite IH.
Qed.

(** Chunks cut between characters: the handler behaves as on the whole
    stream in one chunk. *)
Theorem chunk_split_invariant_at_boundaries chunks :
  Forall (fun c => utf8_end Idle c = Idle) chunks ->
  on_chunks JSON_parse JSON_stringify SHOW_REASONING initial chunks =
  on_chunks JSON_parse JSON_stringify SHOW_REASONING initial [concat chunks].
Proof.
  intros H. rewrite !on_chunks_texts. apply text_split_invariant.
  simpl. now rewrite toString_concat.
Qed.
End ChunkFacts.

(** ** Properties of objects *)

Lemma assoc_get_set_eq {A} k (x : A) fs : assoc_get k (assoc_set k x fs) = Some x.
Proof.
  induction fs as [|[k' y] fs IH]; simpl.
  - now rewrite String.eqb_refl.
  - destruct (String.eqb k k') eqn:E; simpl; [now rewrite String.eqb_refl | now rewrite E].
Qed.

Lemma assoc_get_set_ne {A} k k' (x : A) fs :
  k <> k' -> assoc_get k (assoc_set k' x fs) = assoc_get k fs.
Proof.
  intros Hne. induction fs as [|[k'' y] fs IH]; simpl.
  - apply String.eqb_neq in Hne. now rewrite Hne.
  - destruct (String.eqb k' k'') eqn:E; simpl.
    + apply String.eqb_eq in E. subst k''.
      apply String.eqb_neq in Hne. now rewrite Hne.
    + now rewrite IH.
Qed.

Lemma assoc_get_delete_eq {A} k (fs : list (string * A)) :
  assoc_get k (assoc_delete k fs) = None.
Proof.
  unfold assoc_delete. induction fs as [|[k' y] fs IH]; [reflexivity|].
  rewrite filter_cons. simpl. case_decide as Hk; [|assumption].
  simpl. apply String.eqb_neq in Hk. now rewrite Hk.
Qed.

Lemma assoc_get_delete_ne {A} k k' (fs : list (string * A)) :
  k <> k' -> assoc_get k (assoc_delete k' fs) = assoc_get k fs.
Proof.
  intros Hne. unfold assoc_delete. induction fs as [|[k'' y] fs IH]; [reflexivity|].
  rewrite filter_cons. simpl. case_decide as Hk; simpl.
  - now rewrite IH.
  - subst k''.
    apply String.eqb_neq in Hne. now rewrite Hne.
Qed.

Lemma assoc_delete_set {A} r k (x : A) fs :
  k <> r -> assoc_delete r (assoc_set k x fs) = assoc_set k x (assoc_delete r fs).
Proof.
  intros Hne. unfold assoc_delete. induction fs as [|[k' y] fs IH]; simpl.
  - rewrite filter_cons. simpl. case_decide as Hk; [reflexivity | congruence].
  - destruct (String.eqb k k') eqn:E.
    + apply String.eqb_eq in E. subst k'.
      rewrite !filter_cons. simpl.
      case_decide as Hk; [|congruence].
      simpl. now rewrite String.eqb_refl.
    + rewrite !filter_cons. simpl. case_decide as Hk; simpl.
      * now rewrite E, IH.
      * apply IH.
Qed.

Lemma assoc_delete_idem {A} r (fs : list (string * A)) :
  assoc_delete r (assoc_delete r fs) = assoc_delete r fs.
Proof.
  unfold assoc_delete. induction fs as [|[k y] fs IH]; [reflexivity|].
  rewrite filter_cons. case_decide as Hk; [|assumption].
  rewrite filter_cons. case_decide; [now rewrite IH | contradiction].
Qed.



(** Writing the delta back leaves it where the handler reads it. *)
Lemma delta_of_update data d d' :
  delta_of data = Normal (Some d) ->
  delta_of (update_delta (fun _ => d') data) = Normal (Some d').
Proof.
  intros H. destruct data as [| | | | |fs]; simpl in H; try discriminate.
  unfold update_delta, delta_of. simpl in *.
  destruct (assoc_get "choices" fs) as [choices|] eqn:Hc; [|discriminate].
  destruct choices as [| | |s|l|cfs]; simpl in *; try discriminate.
  - destruct (String.eqb s ""); discriminate.
  - destruct l as [|choice l]; simpl in *; [discriminate|].
    destruct choice as [| | | | |hfs]; simpl in *; try discriminate.
    injection H as H. rewrite H. simpl.
    rewrite assoc_get_set_eq. simpl.
    now rewrite assoc_get_set_eq.
  - destruct (assoc_get "0" cfs) as [choice|] eqn:H0; [|discriminate].
    destruct choice as [| | | | |hfs]; simpl in *; try discriminate.
    injection H as H. rewrite H. simpl.
    rewrite assoc_get_set_eq. simpl.
    rewrite assoc_get_set_eq. simpl.
    now rewrite assoc_get_set_eq.
Qed.

(** ** The content-merge policy *)

(** With operands that have a conversion the branch ends normally, and
    leaves the state that the presence of the two texts decides. *)
Lemma combine_convertible rs reasoning content :
  convertible reasoning = true -> convertible content = true ->
  exists merged,
    combine rs reasoning content =
    (if truthy content then false else rs || truthy reasoning, Normal merged).
Proof.
  unfold convertible. intros Hr Hc.
  destruct (ToString_value reasoning) as [r|] eqn:Er; [|discriminate].
  destruct (ToString_value content) as [c|] eqn:Ec; [|discriminate].
  unfold combine.
  destruct (truthy reasoning) eqn:Tr, rs; simpl andb; cbv iota; rewrite ?Er.
  - destruct reasoning as [j|]; [|discriminate]. simpl default. simpl in Er.
    destruct (truthy content); simpl andb; cbv iota; rewrite ?Ec, ?Er; eexists; reflexivity.
  - destruct (truthy content); simpl andb; cbv iota; rewrite ?Ec; simpl ToString;
      eexists; reflexivity.
  - destruct (truthy content); simpl andb; cbv iota; rewrite ?Ec; simpl ToString;
      eexists; reflexivity.
  - destruct (truthy content); simpl andb; cbv iota; rewrite ?Ec; simpl ToString;
      eexists; reflexivity.
Qed.

(** The branch throws only on a value that has no conversion. *)
Lemma combine_Throw rs reasoning content :
  snd (combine rs reasoning content) = Throw ->
  convertible reasoning = false \/ convertible content = false.
Proof.
  intros H.
  destruct (convertible reasoning) eqn:Hr; [|now left].
  destruct (convertible content) eqn:Hc; [|now right].
  destruct (combine_convertible rs _ _ Hr Hc) as (m & E).
  rewrite E in H. discriminate.
Qed.


Section Reshaper.
Variable JSON_parse : string -> option json.
Variable JSON_stringify : json -> string.

Local Abbreviation decodes_to := (decodes_to JSON_parse).

Lemma on_line_decoded show rs line data :
  decodes_to line data ->
  on_line JSON_parse JSON_stringify show rs line =
  (fst (reshape show rs data), [written JSON_stringify line (snd (reshape show rs data))]).
Proof.
  intros (Hp & Hd & Hj). unfold on_line. rewrite Hp, Hd, Hj.
  now destruct (reshape show rs data) as [rs' [data'|]].
Qed.



Lemma reshape_object show rs data fs :
  delta_of data = Normal (Some (JObj fs)) ->
  reshape show rs data =
  (fst (reshape_delta show rs (JObj fs)),
   match snd (reshape_delta show rs (JObj fs)) with
   | Normal delta' => Normal (update_delta (fun _ => delta') data)
   | Throw => Throw
   end).
Proof.
  intros H. unfold reshape. rewrite H. simpl truthy. cbv iota.
  now destruct (reshape_delta show rs (JObj fs)) as [rs' [delta'|]].
Qed.

Lemma reshape_delta_on rs fs :
  reshape_delta true rs (JObj fs) =
  (fst (combine rs (assoc_get "reasoning_content" fs) (assoc_get "content" fs)),
   match snd (combine rs (assoc_get "reasoning_content" fs) (assoc_get "content" fs)) with
   | Normal merged =>
       Normal (if truthy (Some merged)
               then JObj (assoc_delete "reasoning_content" (assoc_set "content" merged fs))
               else JObj fs)
   | Throw => Throw
   end).
Proof.
  unfold reshape_delta. cbn [get].
  destruct (combine rs _ _) as [rs1 [cc|]]; cbn [fst snd]; [|reflexivity].
  now destruct (truthy (Some cc)).
Qed.



(** C3. With the reasoning display off, a decoded delta is emitted without
    its reasoning field and with a content field: the incoming content text
    when there is one, the empty string when there is none.  The emitted
    delta is the one the handler would emit had the reasoning field never
    been there, and [reasoningStarted] does not move. *)
Theorem C3_display_off rs line data fs :
  decodes_to line data ->
  delta_of data = Normal (Some (JObj fs)) ->
  exists data' fs',
    on_line JSON_parse JSON_stringify false rs line =
      (rs, ["data: " +:+ JSON_stringify data' +:+ nl +:+ nl]) /\
    data' = update_delta (fun _ => JObj fs') data /\
    delta_of data' = Normal (Some (JObj fs')) /\
    emitted_reasoning data' = undefined /\
    emitted_content data' =
      Some (if truthy (assoc_get "content" fs)
            then default (JStr "") (assoc_get "content" fs) else JStr "") /\
    (forall s, assoc_get "content" fs = Some (JStr s) -> emitted_content data' = Some (JStr s)) /\
    (assoc_get "content" fs = None -> emitted_content data' = Some (JStr "")) /\
    is_Some (emitted_content data') /\
    Normal (JObj fs') =
      snd (reshape_delta false rs (JObj (assoc_delete "reasoning_content" fs))).
Proof.
  intros Hline Hdelta.
  set (c := if truthy (assoc_get "content" fs)
            then default (JStr "") (assoc_get "content" fs) else JStr "").
  exists (update_delta (fun _ => JObj (assoc_delete "reasoning_content" (assoc_set "content" c fs))) data).
  exists (assoc_delete "reasoning_content" (assoc_set "content" c fs)).
  assert (Hd' := delta_of_update data (JObj fs)
                   (JObj (assoc_delete "reasoning_content" (assoc_set "content" c fs))) Hdelta).
  assert (Hc : assoc_get "content" (assoc_delete "reasoning_content" (assoc_set "content" c fs)) = Some c).
  { rewrite assoc_get_delete_ne by discriminate. apply assoc_get_set_eq. }
  unfold emitted_reasoning, emitted_content. rewrite Hd'. simpl get.
  split.
  { rewrite (on_line_decoded false rs line data Hline).
    now rewrite (reshape_object false rs data fs Hdelta). }
  split; [reflexivity|]. split; [reflexivity|].
  split; [apply assoc_get_delete_eq|].
  split; [exact Hc|].
  split.
  { intros s Hs. rewrite Hc. subst c. rewrite Hs. simpl. now destruct s. }
  split.
  { intros Hn. rewrite Hc. subst c. now rewrite Hn. }
  split; [rewrite Hc; eauto|].
  simpl. rewrite assoc_get_delete_ne by discriminate. fold c.
  rewrite <- assoc_delete_set by discriminate.
  now rewrite assoc_delete_idem.
Qed.

End Reshaper.

(** ** Lines forwarded as they came *)

Lemma includes_nl_cons c s :
  includes nl (String c s) = Ascii.eqb c LF || includes nl s.
Proof.
  change (includes nl (String c s)) with
    ((if ascii_dec LF c then String.prefix "" s else false) || includes nl s).
  destruct (ascii_dec LF c) as [<-|Hne].
  - now destruct s.
  - apply Ascii.eqb_neq in Hne. rewrite Ascii.eqb_sym in Hne. now rewrite Hne.
Qed.

(** A text without a line separator is all fragment. *)
Lemma cut_no_separator s :
  includes nl s = false -> complete_lines s = [] /\ fragment s = s.
Proof.
  induction s as [|c s IH]; [split; reflexivity|].
  rewrite includes_nl_cons. intros H.
  apply orb_false_elim in H as [Hc Hs]. destruct (IH Hs) as [Hl Hf].
  now rewrite complete_lines_cons, fragment_cons, Hc, Hl, Hf.
Qed.

(** A line closed by a blank line, as Server-Sent Events are. *)
Lemma cut_event line :
  includes nl line = false ->
  complete_lines (line +:+ nl +:+ nl) = [line; ""] /\ fragment (line +:+ nl +:+ nl) = "".
Proof.
  intros H. destruct (cut_no_separator line H) as [Hl Hf].
  induction line as [|c line IH]; [split; reflexivity|].
  rewrite includes_nl_cons in H. apply orb_false_elim in H as [Hc Hs].
  destruct (cut_no_separator line Hs) as [Hl' Hf'].
  destruct (IH Hs Hl' Hf') as [IHl IHf].
  now rewrite append_cons, complete_lines_cons, fragment_cons, Hc, IHl, IHf.
Qed.

Section Verbatim.
Variable JSON_parse : string -> option json.
Variable JSON_stringify : json -> string.
Variable SHOW_REASONING : bool.

Lemma on_line_done rs line :
  startsWith "data: " line = true ->
  includes "[DONE]" line = true ->
  on_line JSON_parse JSON_stringify SHOW_REASONING rs line = (rs, [line +:+ nl]).
Proof. intros Hp Hd. unfold on_line. now rewrite Hp, Hd. Qed.

(** C10. A candidate line that holds [[DONE]] anywhere is written back as
    it came, whatever [JSON.parse] would make of it: it is not decoded, the
    content-merge policy is not applied, [reasoningStarted] does not move. *)
Theorem C10_done_by_substring rs line :
  startsWith "data: " line = true ->
  includes "[DONE]" line = true ->
  on_line JSON_parse JSON_stringify SHOW_REASONING rs line = (rs, [line +:+ nl]).
Proof. intros Hp Hd. unfold on_line. now rewrite Hp, Hd. Qed.

(** A candidate line whose payload does not decode is written back as it
    came, and the handler goes on in the same state. *)
Lemma on_line_malformed rs line :
  startsWith "data: " line = true ->
  includes "[DONE]" line = false ->
  JSON_parse (slice 6 line) = None ->
  on_line JSON_parse JSON_stringify SHOW_REASONING rs line = (rs, [line +:+ nl]).
Proof. intros Hp Hd Hj. unfold on_line. now rewrite Hp, Hd, Hj. Qed.

(** A line without the event prefix writes nothing. *)
Lemma on_line_other rs line :
  startsWith "data: " line = false ->
  on_line JSON_parse JSON_stringify SHOW_REASONING rs line = (rs, []).
Proof. intros Hp. unfold on_line. now rewrite Hp. Qed.

(** C6, at the event [line\n\n]: a candidate line that fails to decode is
    written with one line separator; the blank line that closed the event is
    not written. *)
Theorem C6_malformed_event_framing st line :
  buffer st = "" ->
  includes nl line = false ->
  startsWith "data: " line = true ->
  includes "[DONE]" line = false ->
  JSON_parse (slice 6 line) = None ->
  on_text JSON_parse JSON_stringify SHOW_REASONING st (line +:+ nl +:+ nl) = (st, [line +:+ nl]) /\
  [line +:+ nl] <> [line +:+ nl +:+ nl].
Proof.
  intros Hb Hnl Hp Hd Hj. split.
  - rewrite on_text_eq, Hb. change ("" +:+ ?x) with x.
    destruct (cut_event line Hnl) as [-> ->]. simpl.
    rewrite (on_line_malformed _ _ Hp Hd Hj). simpl.
    destruct st; simpl in *; now subst.
  - intros H. injection H as H. clear -H.
    induction line as [|c line IH]; [discriminate|].
    rewrite !append_cons in H. injection H as H. auto.
Qed.

(** C4, at the stream [data: [DONE]\n\n]: the terminator is written as
    [data: [DONE]\n], with one line separator. *)
Theorem C4_done_framing :
  on_chunks JSON_parse JSON_stringify SHOW_REASONING initial
    [list_byte_of_string ("data: [DONE]" +:+ nl +:+ nl)] =
  (initial, ["data: [DONE]" +:+ nl]) /\
  "data: [DONE]" +:+ nl <> "data: [DONE]" +:+ nl +:+ nl.
Proof. split; [reflexivity | discriminate]. Qed.

(** The terminator line comes out last when it comes in last. *)
Lemma done_is_last rs lines line :
  startsWith "data: " line = true ->
  includes "[DONE]" line = true ->
  last (snd (forEach_line JSON_parse JSON_stringify SHOW_REASONING rs (lines ++ [line; ""])))
  = Some (line +:+ nl).
Proof.
  intros Hp Hd. rewrite forEach_line_app. simpl.
  rewrite (on_line_done _ _ Hp Hd). simpl.
  now rewrite last_snoc.
Qed.
End Verbatim.

(** ** A chunk boundary inside a character *)

Lemma append_inj_r (a b c : string) : a +:+ c = b +:+ c -> a = b.
Proof.
  assert (Hlen : forall x y : string,
             String.length (x +:+ y) = String.length x + String.length y).
  { intros x y. induction x as [|h x IH]; [reflexivity|].
    rewrite append_cons. simpl. now rewrite IH. }
  revert b. induction a as [|x a IH]; intros [|y b] H.
  - reflexivity.
  - apply (f_equal String.length) in H. rewrite append_cons in H. simpl in H.
    rewrite !Hlen in H. simpl in H. lia.
  - apply (f_equal String.length) in H. rewrite append_cons in H. simpl in H.
    rewrite !Hlen in H. simpl in H. lia.
  - rewrite !append_cons in H. injection H as -> H. now rewrite (IH b H).
Qed.

(** C1, at a chunk boundary between the two bytes of a character: the two
    halves are decoded apart, each into U+FFFD, and the handler emits an
    event other than the one it emits for the unsplit stream. *)
Theorem C1_split_inside_character
    (JSON_parse : string -> option json) (JSON_stringify : json -> string) (show : bool) :
  let broken := REPLACEMENT +:+ REPLACEMENT in
  JSON_parse (content_payload e_acute) = Some (event (content_delta e_acute)) ->
  JSON_parse (content_payload broken) = Some (event (content_delta broken)) ->
  JSON_stringify (event (content_delta e_acute)) <>
  JSON_stringify (event (content_delta broken)) ->
  take 40 accented_stream ++ drop 40 accented_stream = accented_stream /\
  snd (on_chunks JSON_parse JSON_stringify show initial [accented_stream]) =
    ["data: " +:+ JSON_stringify (event (content_delta e_acute)) +:+ nl +:+ nl] /\
  snd (on_chunks JSON_parse JSON_stringify show initial
         [take 40 accented_stream; drop 40 accented_stream]) =
    ["data: " +:+ JSON_stringify (event (content_delta broken)) +:+ nl +:+ nl] /\
  snd (on_chunks JSON_parse JSON_stringify show initial
         [take 40 accented_stream; drop 40 accented_stream]) <>
  snd (on_chunks JSON_parse JSON_stringify show initial [accented_stream]).
Proof.
  intros broken Hok Hbad Hne.
  assert (Hwhole :
    snd (on_chunks JSON_parse JSON_stringify show initial [accented_stream]) =
    ["data: " +:+ JSON_stringify (event (content_delta e_acute)) +:+ nl +:+ nl]).
  { vm_compute in Hok. destruct show; vm_compute; rewrite Hok; reflexivity. }
  assert (Hsplit :
    snd (on_chunks JSON_parse JSON_stringify show initial
           [take 40 accented_stream; drop 40 accented_stream]) =
    ["data: " +:+ JSON_stringify (event (content_delta broken)) +:+ nl +:+ nl]).
  { vm_compute in Hbad. destruct show; vm_compute; rewrite Hbad; reflexivity. }
  split; [apply take_drop|]. split; [exact Hwhole|]. split; [exact Hsplit|].
  rewrite Hwhole, Hsplit. intros H. injection H as H.
  apply Hne, (append_inj_r _ _ (nl +:+ nl)). symmetry. exact H.
Qed.

Lemma C1_split_inside_character_witness :
  let JSON_parse := parse_table accented_table in
  let broken := REPLACEMENT +:+ REPLACEMENT in
  JSON_parse (content_payload e_acute) = Some (event (content_delta e_acute)) /\
  JSON_parse (content_payload broken) = Some (event (content_delta broken)) /\
  stringify_content (event (content_delta e_acute)) <>
  stringify_content (event (content_delta broken)) /\
  snd (on_chunks JSON_parse stringify_content false initial
         [take 40 accented_stream; drop 40 accented_stream]) <>
  snd (on_chunks JSON_parse stringify_content false initial [accented_stream]).
Proof.
  intros JSON_parse broken.
  assert (H1 : JSON_parse (content_payload e_acute) = Some (event (content_delta e_acute)))
    by reflexivity.
  assert (H2 : JSON_parse (content_payload broken) = Some (event (content_delta broken)))
    by reflexivity.
  assert (H3 : stringify_content (event (content_delta e_acute)) <>
               stringify_content (event (content_delta broken)))
    by (vm_compute; discriminate).
  split; [exact H1|]. split; [exact H2|]. split; [exact H3|].
  exact (proj2 (proj2 (proj2
           (C1_split_inside_character JSON_parse stringify_content false H1 H2 H3)))).
Defined.

Lemma C3_display_off_witness :
  let JSON_parse := parse_table (reasoning_table "a") in
  let line := reasoning_line "a" in
  let data := event (reasoning_delta "a") in
  decodes_to JSON_parse line data /\
  delta_of data = Normal (Some (reasoning_delta "a")) /\
  exists data',
    on_line JSON_parse stringify_content false true line =
      (true, ["data: " +:+ stringify_content data' +:+ nl +:+ nl]) /\
    emitted_reasoning data' = undefined /\
    emitted_content data' = Some (JStr "").
Proof.
  intros JSON_parse line data.
  assert (H1 : decodes_to JSON_parse line data) by (repeat split; reflexivity).
  assert (H2 : delta_of data = Normal (Some (reasoning_delta "a"))) by reflexivity.
  split; [exact H1|]. split; [exact H2|].
  destruct (C3_display_off JSON_parse stringify_content true line data _ H1 H2)
    as (data' & fs' & Hw & _ & _ & Hr & _ & _ & Hc & _).
  exists data'. split; [exact Hw|]. split; [exact Hr|]. apply Hc. reflexivity.
Defined.




Lemma C6_malformed_event_framing_witness :
  let JSON_parse := parse_table [] in
  let line := "data: {oops" in
  buffer initial = "" /\ includes nl line = false /\
  startsWith "data: " line = true /\ includes "[DONE]" line = false /\
  JSON_parse (slice 6 line) = None /\
  on_text JSON_parse stringify_content false initial (line +:+ nl +:+ nl) =
    (initial, [line +:+ nl]).
Proof.
  intros JSON_parse line.
  repeat (split; [reflexivity|]).
  exact (proj1 (C6_malformed_event_framing JSON_parse stringify_content false initial line
                  eq_refl eq_refl eq_refl eq_refl eq_refl)).
Defined.

(** A payload that decodes, and would have its reasoning text dropped, goes
    out untouched once that text holds the terminator's characters. *)
Lemma C10_done_by_substring_witness :
  let JSON_parse := parse_table (reasoning_table "[DONE]") in
  let line := reasoning_line "[DONE]" in
  startsWith "data: " line = true /\ includes "[DONE]" line = true /\
  JSON_parse (slice 6 line) = Some (event (reasoning_delta "[DONE]")) /\
  on_line JSON_parse stringify_content false false line = (false, [line +:+ nl]).
Proof.
  intros JSON_parse line.
  repeat (split; [reflexivity|]).
  exact (C10_done_by_substring JSON_parse stringify_content false false line eq_refl eq_refl).
Defined.

(** ** The request mapper *)

(** The request as the file's configuration builds it. *)
Lemma nimRequest_thinking nimModel messages temperature max_tokens stream :
  NimRequest.extra_body
    (nimRequest Config.ENABLE_THINKING_MODE nimModel messages temperature max_tokens stream) =
  Some (JObj [("chat_template_kwargs", JObj [("thinking", JBool true)])]).
Proof. reflexivity. Qed.

Lemma js_or_truthy (j d : json) : truthy (Some j) = true -> js_or (Some j) d = j.
Proof. intros H. unfold js_or. now rewrite H. Qed.

Lemma js_or_undefined (d : json) : js_or undefined d = d.
Proof. reflexivity. Qed.

(** A sampling temperature other than zero reaches the backend, and an
    absent one is replaced by the default; so for the output-length cap. *)
Lemma nimRequest_defaults thinking nimModel messages stream :
  (forall t m, truthy (Some t) = true -> truthy (Some m) = true ->
     let r := nimRequest thinking nimModel messages (Some t) (Some m) stream in
     NimRequest.temperature r = t /\ NimRequest.max_tokens r = m) /\
  (let r := nimRequest thinking nimModel messages undefined undefined stream in
   NimRequest.temperature r = JNum "0.6" /\ NimRequest.max_tokens r = JNum "9024").
Proof.
  split; [|split; reflexivity].
  intros t m Ht Hm r. subst r. unfold nimRequest.
  cbn [NimRequest.temperature NimRequest.max_tokens].
  now rewrite !js_or_truthy.
Qed.

(** C7, at a request with [temperature: 0] and [max_tokens: 0]: both are
    present, and both are replaced by the defaults. *)
Theorem C7_zero_is_replaced thinking nimModel messages stream :
  let r := nimRequest thinking nimModel messages (Some (JNum "0")) (Some (JNum "0")) stream in
  NimRequest.temperature r = JNum "0.6" /\ NimRequest.max_tokens r = JNum "9024" /\
  NimRequest.temperature r <> JNum "0" /\ NimRequest.max_tokens r <> JNum "0".
Proof. repeat split; discriminate. Qed.

(** ** Sorting by a numeric key *)

Section SortFacts.
Context {A : Type} (key : A -> Z).

Local Abbreviation by_key := (by_key key).
Local Abbreviation key_le := (key_le key).

Lemma insert_by_Permutation (x : A) l : Permutation (insert_by by_key x l) (x :: l).
Proof.
  induction l as [|y l IH]; simpl; [reflexivity|].
  destruct (by_key x y <=? 0)%Z; [reflexivity|].
  rewrite IH. apply perm_swap.
Qed.

Lemma sort_Permutation l : Permutation (sort by_key l) l.
Proof.
  induction l as [|x l IH]; simpl; [reflexivity|].
  rewrite insert_by_Permutation. now constructor.
Qed.

Lemma insert_by_sorted (x : A) l :
  StronglySorted key_le l -> StronglySorted key_le (insert_by by_key x l).
Proof.
  induction 1 as [|y l Hs IH Hall]; simpl.
  - repeat constructor.
  - destruct (by_key x y <=? 0)%Z eqn:E.
    + apply Z.leb_le in E. unfold by_key in E.
      constructor; [now constructor|].
      constructor; [unfold key_le; lia|].
      eapply Forall_impl; [exact Hall|].
      unfold key_le. intros z Hz. lia.
    + apply Z.leb_gt in E. unfold by_key in E.
      constructor; [exact IH|].
      rewrite insert_by_Permutation.
      constructor; [unfold key_le; lia | exact Hall].
Qed.

Lemma sort_sorted l : StronglySorted key_le (sort by_key l).
Proof.
  induction l as [|x l IH]; simpl; [constructor | now apply insert_by_sorted].
Qed.

(** Elements of equal key keep the order they came in. *)
Lemma insert_by_stable k (x : A) l :
  filter (fun e => key e = k) (insert_by by_key x l) =
  filter (fun e => key e = k) (x :: l).
Proof.
  induction l as [|y l IH]; simpl; [reflexivity|].
  destruct (by_key x y <=? 0)%Z eqn:E; [reflexivity|].
  apply Z.leb_gt in E. unfold by_key in E.
  rewrite (filter_cons _ y), IH, !(filter_cons _ x), (filter_cons _ y).
  destruct (decide (key x = k)), (decide (key y = k)); try reflexivity. lia.
Qed.

Lemma sort_stable k l :
  filter (fun e => key e = k) (sort by_key l) = filter (fun e => key e = k) l.
Proof.
  induction l as [|x l IH]; simpl; [reflexivity|].
  rewrite insert_by_stable, !filter_cons, IH. reflexivity.
Qed.
End SortFacts.

(** ** The lorebook matcher *)

Lemma flat_map_ext_in {A B} (f g : A -> list B) l :
  (forall x, In x l -> f x = g x) -> flat_map f l = flat_map g l.
Proof.
  induction l as [|x l IH]; intros H; simpl; [reflexivity|].
  rewrite (H x (or_introl eq_refl)), IH; [reflexivity|].
  intros y Hy. apply H. now right.
Qed.

Section LoreFacts.
Variable toLowerCase : string -> string.
Variable trim : string -> string.

Local Abbreviation disabled_set := (disabledLorebooks toLowerCase trim).
Local Abbreviation active_set := (activeLorebooks toLowerCase trim).
Local Abbreviation find := (findRelevantLoreEntries toLowerCase trim).

Lemma pushed_by_entry_inv text lower lb e r :
  In r (pushed_by_entry toLowerCase text lower lb e) ->
  r = relevant lb e /\
  exists ks, LoreEntry.keys e = Some ks /\
             hasMatch toLowerCase text lower e ks = true /\
             LoreEntry.content e <> "".
Proof.
  unfold pushed_by_entry. destruct (LoreEntry.keys e) as [ks|]; [|intros []].
  destruct (hasMatch toLowerCase text lower e ks) eqn:Hm; [|intros []].
  destruct (String.eqb (LoreEntry.content e) "") eqn:Hc; [intros []|].
  simpl. intros [<-|[]]. split; [reflexivity|].
  exists ks. split; [reflexivity|]. split; [exact Hm|]. now apply String.eqb_neq.
Qed.

Lemma pushed_by_entry_intro text lower lb e ks :
  LoreEntry.keys e = Some ks ->
  hasMatch toLowerCase text lower e ks = true ->
  LoreEntry.content e <> "" ->
  pushed_by_entry toLowerCase text lower lb e = [relevant lb e].
Proof.
  intros Hk Hm Hc. unfold pushed_by_entry. rewrite Hk, Hm.
  apply String.eqb_neq in Hc. now rewrite Hc.
Qed.

Lemma pushed_by_lorebook_inv text lower active disabled useAll lb r :
  In r (pushed_by_lorebook toLowerCase text lower active disabled useAll lb) ->
  Relevant.lorebook r = Lorebook.title lb /\
  toLowerCase (Lorebook.title lb) ∉ disabled.
Proof.
  unfold pushed_by_lorebook.
  case_bool_decide as Hd; [intros []|].
  destruct (negb useAll && _); [intros []|].
  unfold pushed_by_entries. rewrite in_flat_map. intros (e & _ & Hr).
  apply pushed_by_entry_inv in Hr as [-> _]. split; [reflexivity | exact Hd].
Qed.

Lemma disabledLorebooks_spec text t :
  t ∈ disabled_set text <->
  exists d, In d (disableMatches text) /\
            t = toLowerCase (trim (strip_directive "<DISABLE_LOREBOOK:" d)).
Proof.
  unfold disabledLorebooks. rewrite elem_of_list_to_set, list_elem_of_In, in_map_iff.
  split; intros (d & H1 & H2); exists d; auto.
Qed.

(** C9, as the matcher has it.  A source whose title, lower-cased and not
    trimmed, is the lower-cased, trimmed title of a deactivation directive
    found in the conversation pushes nothing, whatever the activation
    directives say, and no returned entry is labelled with its title. *)
Theorem C9_deactivation_precedence (ENABLE_LOREBOOK : bool)
    (LOREBOOK_DATA : list Lorebook.t) (messages : list Message.t)
    (lorebook : Lorebook.t) (directive : string) :
  let text := conversationText messages in
  let lower := toLowerCase text in
  In directive (disableMatches text) ->
  toLowerCase (trim (strip_directive "<DISABLE_LOREBOOK:" directive)) =
    toLowerCase (Lorebook.title lorebook) ->
  (forall active useAllLorebooks,
      pushed_by_lorebook toLowerCase text lower active (disabled_set text)
        useAllLorebooks lorebook = []) /\
  (forall r, In r (find ENABLE_LOREBOOK LOREBOOK_DATA messages) ->
             Relevant.lorebook r <> Lorebook.title lorebook).
Proof.
  intros text lower Hin Htitle.
  assert (Hdis : toLowerCase (Lorebook.title lorebook) ∈ disabled_set text).
  { apply disabledLorebooks_spec. exists directive. split; [exact Hin | now symmetry]. }
  split.
  - intros active useAll. unfold pushed_by_lorebook.
    now rewrite (bool_decide_eq_true_2 _ Hdis).
  - intros r Hr Heq. unfold findRelevantLoreEntries in Hr.
    destruct (negb ENABLE_LOREBOOK || (length LOREBOOK_DATA =? 0)%nat); [destruct Hr|].
    apply (Permutation_in _ (sort_Permutation Relevant.order _)) in Hr.
    apply in_flat_map in Hr as (lb & _ & Hr).
    apply pushed_by_lorebook_inv in Hr as [Hl Hnd].
    apply Hnd. fold text. now rewrite <- Hl, Heq.
Qed.

(** With the lorebook enabled, no activation directive and no source
    disabled, the matcher returns the stable sort of everything that
    matches. *)
Lemma matcher_all_active (LOREBOOK_DATA : list Lorebook.t) (messages : list Message.t) :
  let text := conversationText messages in
  let lower := toLowerCase text in
  activationMatches text = [] ->
  (forall lb, In lb LOREBOOK_DATA -> toLowerCase (Lorebook.title lb) ∉ disabled_set text) ->
  find true LOREBOOK_DATA messages =
  sort by_order (flat_map (pushed_by_entries toLowerCase text lower) LOREBOOK_DATA).
Proof.
  intros text lower Hact Hnd.
  unfold findRelevantLoreEntries. simpl negb. cbv beta iota.
  destruct LOREBOOK_DATA as [|lb0 data] eqn:Hdata; [reflexivity|].
  simpl orb. cbv iota. fold text lower. f_equal.
  apply flat_map_ext_in. intros lb Hlb.
  unfold pushed_by_lorebook.
  rewrite (bool_decide_eq_false_2 _ (Hnd lb Hlb)).
  unfold activeLorebooks. rewrite Hact. reflexivity.
Qed.

(** Sources are loaded only when the lorebook is enabled. *)
Lemma loadLorebooks_disabled lorebooksDir : loadLorebooks false lorebooksDir = [].
Proof. reflexivity. Qed.

(** C8, as the matcher has it.  With no activation directive in the
    conversation and no loaded source named by a deactivation directive, the
    result is the stable sort by [order] of every matching entry with a
    content, of every loaded source, in discovery order: each source that
    has such an entry is represented, the result ascends in [order], and
    entries of equal [order] stay in discovery order. *)
Theorem C8_all_sources_sorted_stable (ENABLE_LOREBOOK : bool)
    (lorebooksDir : option (list (string * option LoreFile.t)))
    (messages : list Message.t) :
  let LOREBOOK_DATA := loadLorebooks ENABLE_LOREBOOK lorebooksDir in
  let text := conversationText messages in
  let lower := toLowerCase text in
  let result := find ENABLE_LOREBOOK LOREBOOK_DATA messages in
  let found := flat_map (pushed_by_entries toLowerCase text lower) LOREBOOK_DATA in
  activationMatches text = [] ->
  (forall lb, In lb LOREBOOK_DATA -> toLowerCase (Lorebook.title lb) ∉ disabled_set text) ->
  (forall lb, In lb LOREBOOK_DATA ->
     exists e ks, In e (Object_values (Lorebook.entries lb)) /\
                  LoreEntry.keys e = Some ks /\
                  hasMatch toLowerCase text lower e ks = true /\
                  LoreEntry.content e <> "") ->
  (forall lb, In lb LOREBOOK_DATA ->
     exists e, In e (Object_values (Lorebook.entries lb)) /\
               In (relevant lb e) result /\
               Relevant.lorebook (relevant lb e) = Lorebook.title lb) /\
  StronglySorted (fun a b => (Relevant.order a <= Relevant.order b)%Z) result /\
  Permutation result found /\
  (forall k, filter (fun r => Relevant.order r = k) result =
             filter (fun r => Relevant.order r = k) found).
Proof.
  intros LOREBOOK_DATA text lower result found Hact Hnd Hmatch.
  assert (Hres : result = sort by_order found).
  { unfold result, found, LOREBOOK_DATA in *. destruct ENABLE_LOREBOOK.
    - now apply matcher_all_active.
    - reflexivity. }
  split; [|rewrite Hres; split; [apply (sort_sorted Relevant.order) |
           split; [apply (sort_Permutation Relevant.order) |
                   intros k; apply (sort_stable Relevant.order)]]].
  intros lb Hlb. destruct (Hmatch lb Hlb) as (e & ks & He & Hk & Hm & Hc).
  exists e. split; [exact He|]. split; [|reflexivity].
  rewrite Hres.
  apply (Permutation_in _ (Permutation_sym (sort_Permutation Relevant.order found))).
  apply in_flat_map. exists lb. split; [exact Hlb|].
  unfold pushed_by_entries. apply in_flat_map. exists e. split; [exact He|].
  rewrite (pushed_by_entry_intro _ _ _ _ _ Hk Hm Hc). now left.
Qed.
End LoreFacts.

(** ** The matcher on ASCII conversations *)

Lemma no_directive_disabled (text title : string) :
  disableMatches text = [] ->
  title ∉ disabledLorebooks ascii_toLowerCase ascii_trim text.
Proof.
  intros H. unfold disabledLorebooks. rewrite H. apply not_elem_of_empty.
Qed.

(** The directory of the examples: two lorebooks and a file that is none. *)
Lemma loadLorebooks_example :
  loadLorebooks true (Some [("atlas.json", Some atlas_json);
                            ("bestiary.json", Some bestiary_json);
                            ("notes.txt", None)]) = [atlas; bestiary].
Proof. reflexivity. Qed.

(** C8 as stated fails: no activation directive, one loaded source with a
    matching entry, and a deactivation directive that names it. *)
Lemma C8_counterexample :
  let LOREBOOK_DATA := loadLorebooks true (Some [("bestiary.json", Some bestiary_json)]) in
  let messages := [user "A gull! <DISABLE_LOREBOOK:bestiary>"] in
  let text := conversationText messages in
  let result := findRelevantLoreEntries ascii_toLowerCase ascii_trim true LOREBOOK_DATA messages in
  LOREBOOK_DATA = [bestiary] /\
  activationMatches text = [] /\
  (forall lb, In lb LOREBOOK_DATA ->
     exists e ks, In e (Object_values (Lorebook.entries lb)) /\
                  LoreEntry.keys e = Some ks /\
                  hasMatch ascii_toLowerCase text (ascii_toLowerCase text) e ks = true) /\
  result = [] /\
  ~ (forall lb, In lb LOREBOOK_DATA ->
       exists r, In r result /\ Relevant.lorebook r = Lorebook.title lb).
Proof.
  intros LOREBOOK_DATA messages text result.
  assert (Hres : result = []) by (vm_compute; reflexivity).
  split; [reflexivity|]. split; [reflexivity|]. split; [|split; [exact Hres|]].
  - intros lb [<-|[]]. exists (entry "gull" "Gulls nest on the tower." 5), ["gull"].
    split; [now left|]. split; reflexivity.
  - intros H. destruct (H bestiary (or_introl eq_refl)) as (r & Hr & _).
    rewrite Hres in Hr. destruct Hr.
Qed.

(** An entry whose key matches and whose content is empty is not pushed. *)
Lemma matching_entry_without_content :
  let LOREBOOK_DATA := loadLorebooks true (Some [("blank.json", Some blank_json)]) in
  let messages := [user "A gull!"] in
  let text := conversationText messages in
  hasMatch ascii_toLowerCase text (ascii_toLowerCase text) (entry "gull" "" 0) ["gull"] = true /\
  findRelevantLoreEntries ascii_toLowerCase ascii_trim true LOREBOOK_DATA messages = [].
Proof. split; reflexivity. Qed.

Lemma C8_all_sources_sorted_stable_witness :
  let lorebooksDir := Some [("atlas.json", Some atlas_json);
                            ("bestiary.json", Some bestiary_json);
                            ("notes.txt", None)] in
  let LOREBOOK_DATA := loadLorebooks true lorebooksDir in
  let messages := [user "From the Harbour a gull flew to the tower."] in
  let text := conversationText messages in
  let result := findRelevantLoreEntries ascii_toLowerCase ascii_trim true LOREBOOK_DATA messages in
  activationMatches text = [] /\
  disableMatches text = [] /\
  (forall lb, In lb LOREBOOK_DATA ->
     exists r, In r result /\ Relevant.lorebook r = Lorebook.title lb) /\
  StronglySorted (fun a b => (Relevant.order a <= Relevant.order b)%Z) result /\
  filter (fun r => Relevant.order r = 5%Z) result =
    [relevant atlas (entry "harbour" "The harbour freezes in winter." 5);
     relevant bestiary (entry "gull" "Gulls nest on the tower." 5)].
Proof.
  intros lorebooksDir LOREBOOK_DATA messages text result.
  assert (Hact : activationMatches text = []) by (vm_compute; reflexivity).
  assert (Hdis : disableMatches text = []) by (vm_compute; reflexivity).
  assert (Hnd : forall lb, In lb LOREBOOK_DATA ->
            ascii_toLowerCase (Lorebook.title lb) ∉
            disabledLorebooks ascii_toLowerCase ascii_trim text).
  { intros lb _. apply no_directive_disabled, Hdis. }
  assert (Hm : forall lb, In lb LOREBOOK_DATA ->
            exists e ks, In e (Object_values (Lorebook.entries lb)) /\
                         LoreEntry.keys e = Some ks /\
                         hasMatch ascii_toLowerCase text (ascii_toLowerCase text) e ks = true /\
                         LoreEntry.content e <> "").
  { intros lb [<-|[<-|[]]].
    - exists (entry "harbour" "The harbour freezes in winter." 5), ["harbour"].
      split; [now left|]. split; [reflexivity|]. split; [reflexivity | discriminate].
    - exists (entry "gull" "Gulls nest on the tower." 5), ["gull"].
      split; [now left|]. split; [reflexivity|]. split; [reflexivity | discriminate]. }
  destruct (C8_all_sources_sorted_stable ascii_toLowerCase ascii_trim
              true lorebooksDir messages Hact Hnd Hm) as (Hall & Hsorted & _ & Hstable).
  split; [exact Hact|]. split; [exact Hdis|]. split; [|split; [exact Hsorted|]].
  - intros lb Hlb. destruct (Hall lb Hlb) as (e & _ & Hin & Hl).
    exists (relevant lb e). split; assumption.
  - fold LOREBOOK_DATA text in Hstable. fold result in Hstable. rewrite Hstable. reflexivity.
Defined.

(** The title of a source is lower-cased and not trimmed: a directive,
    whose title is trimmed, does not name a source whose title ends in a
    space. *)
Lemma padded_title_is_not_named :
  let padded := {| Lorebook.title := "Atlas ";
                   Lorebook.author := "Unknown";
                   Lorebook.entries := Lorebook.entries atlas |} in
  let messages := [user "The harbour. <DISABLE_LOREBOOK:Atlas >"] in
  findRelevantLoreEntries ascii_toLowerCase ascii_trim true [padded] messages =
  [relevant padded (entry "harbour" "The harbour freezes in winter." 5)].
Proof. vm_compute. reflexivity. Qed.

(** C9 as stated fails for a source whose title is padded: lower-cased and
    trimmed, its title is the title of the deactivation directive in the
    conversation, and its entry is returned all the same. *)
Lemma C9_counterexample :
  let LOREBOOK_DATA := loadLorebooks true (Some [("atlas.json", Some padded_atlas_json)]) in
  let messages := [user "The harbour. <DISABLE_LOREBOOK:Atlas >"] in
  let text := conversationText messages in
  let directive := "<DISABLE_LOREBOOK:Atlas >" in
  let result := findRelevantLoreEntries ascii_toLowerCase ascii_trim true LOREBOOK_DATA messages in
  LOREBOOK_DATA = [padded_atlas] /\
  disableMatches text = [directive] /\
  ascii_toLowerCase (ascii_trim (strip_directive "<DISABLE_LOREBOOK:" directive)) =
    ascii_toLowerCase (ascii_trim (Lorebook.title padded_atlas)) /\
  result = [relevant padded_atlas (entry "harbour" "The harbour freezes in winter." 5)] /\
  (exists r, In r result /\ Relevant.lorebook r = Lorebook.title padded_atlas) /\
  ~ (forall r, In r result -> Relevant.lorebook r <> Lorebook.title padded_atlas).
Proof.
  intros LOREBOOK_DATA messages text directive result.
  assert (Hres : result =
                 [relevant padded_atlas (entry "harbour" "The harbour freezes in winter." 5)])
    by (vm_compute; reflexivity).
  split; [reflexivity|]. split; [vm_compute; reflexivity|].
  split; [vm_compute; reflexivity|]. split; [exact Hres|].
  split.
  - eexists. split; [rewrite Hres; left; reflexivity | reflexivity].
  - intros H. apply (H (relevant padded_atlas (entry "harbour" "The harbour freezes in winter." 5))).
    + rewrite Hres. now left.
    + reflexivity.
Qed.

Lemma C9_deactivation_precedence_witness :
  let LOREBOOK_DATA := [atlas; bestiary] in
  let messages := [user "A gull over the harbour. <disable_lorebook: ATLAS >"] in
  let text := conversationText messages in
  In "<disable_lorebook: ATLAS >" (disableMatches text) /\
  ascii_toLowerCase (ascii_trim (strip_directive "<DISABLE_LOREBOOK:" "<disable_lorebook: ATLAS >")) =
    ascii_toLowerCase (Lorebook.title atlas) /\
  (forall r,
      In r (findRelevantLoreEntries ascii_toLowerCase ascii_trim true LOREBOOK_DATA messages) ->
      Relevant.lorebook r <> "Atlas") /\
  findRelevantLoreEntries ascii_toLowerCase ascii_trim true LOREBOOK_DATA messages =
    [relevant bestiary (entry "gull" "Gulls nest on the tower." 5)].
Proof.
  intros LOREBOOK_DATA messages text.
  assert (H1 : In "<disable_lorebook: ATLAS >" (disableMatches text))
    by (vm_compute; left; reflexivity).
  assert (H2 : ascii_toLowerCase
                 (ascii_trim (strip_directive "<DISABLE_LOREBOOK:" "<disable_lorebook: ATLAS >")) =
               ascii_toLowerCase (Lorebook.title atlas))
    by (vm_compute; reflexivity).
  split; [exact H1|]. split; [exact H2|]. split; [|vm_compute; reflexivity].
  exact (proj2 (C9_deactivation_precedence ascii_toLowerCase ascii_trim true
                  LOREBOOK_DATA messages atlas _ H1 H2)).
Defined.

(** * Further properties of server.js *)

(** ** The streaming handler *)

Lemma startsWith_app p s t : startsWith p s = true -> startsWith p (s +:+ t) = true.
Proof.
  unfold startsWith. revert s. induction p as [|a p IH]; intros s H.
  - now destruct (s +:+ t).
  - destruct s as [|b s]; [discriminate|]. rewrite append_cons. simpl in *.
    destruct (ascii_dec a b); [now apply IH | discriminate].
Qed.

Section StreamExtras.
Variable JSON_parse : string -> option json.
Variable JSON_stringify : json -> string.
Variable SHOW_REASONING : bool.

Local Abbreviation on_line := (on_line JSON_parse JSON_stringify SHOW_REASONING).
Local Abbreviation forEach_line := (forEach_line JSON_parse JSON_stringify SHOW_REASONING).
Local Abbreviation on_text := (on_text JSON_parse JSON_stringify SHOW_REASONING).
Local Abbreviation on_texts := (on_texts JSON_parse JSON_stringify SHOW_REASONING).
Local Abbreviation on_chunks := (on_chunks JSON_parse JSON_stringify SHOW_REASONING).
Local Abbreviation response_writes :=
  (response_writes JSON_parse JSON_stringify SHOW_REASONING).

(** X1. However the bytes of a response are cut into chunks, as long as
    every chunk ends between two characters, the handler writes the same
    events and ends in the same state. *)
Theorem X1_chunking_invariant chunks1 chunks2 :
  concat chunks1 = concat chunks2 ->
  Forall (fun c => utf8_end Idle c = Idle) chunks1 ->
  Forall (fun c => utf8_end Idle c = Idle) chunks2 ->
  on_chunks initial chunks1 = on_chunks initial chunks2.
Proof.
  intros Hcat H1 H2. rewrite !on_chunks_texts.
  apply text_split_invariant.
  now rewrite <- !toString_concat, Hcat.
Qed.

Lemma on_line_written rs line :
  Forall (fun w => startsWith "data: " w = true /\ exists body, w = body +:+ nl)
         (snd (on_line rs line)).
Proof.
  unfold on_line.
  destruct (startsWith "data: " line) eqn:Hp; [|constructor].
  assert (Hraw : Forall (fun w => startsWith "data: " w = true /\ exists body, w = body +:+ nl)
                        [line +:+ nl]).
  { constructor; [|constructor]. split; [now apply startsWith_app | now exists line]. }
  destruct (includes "[DONE]" line); [exact Hraw|].
  destruct (JSON_parse (slice 6 line)) as [data|]; [|exact Hraw].
  destruct (reshape SHOW_REASONING rs data) as [rs' [data'|]]; [|exact Hraw].
  constructor; [|constructor].
  split; [now apply (startsWith_app "data: " "data: ")|].
  exists ("data: " +:+ JSON_stringify data' +:+ nl).
  now rewrite !append_assoc.
Qed.

Lemma forEach_line_written rs lines :
  Forall (fun w => startsWith "data: " w = true /\ exists body, w = body +:+ nl)
         (snd (forEach_line rs lines)).
Proof.
  revert rs. induction lines as [|line lines IH]; intros rs; simpl; [constructor|].
  pose proof (on_line_written rs line) as H.
  destruct (on_line rs line) as [rs1 o1]. specialize (IH rs1).
  destruct (forEach_line rs1 lines) as [rs2 o2]. simpl in *.
  apply Forall_app. now split.
Qed.

(** X2. Whatever arrives, every call of [res.write] gets a line that starts
    with the event prefix and ends in a line separator: a line of the
    backend without the prefix (a comment, an [event:] field, a blank line)
    is never forwarded. *)
Theorem X2_writes_are_data_lines st chunks :
  Forall (fun w => startsWith "data: " w = true /\ exists body, w = body +:+ nl)
         (snd (on_chunks st chunks)).
Proof.
  revert st. induction chunks as [|c chunks IH]; intros st; simpl; [constructor|].
  unfold on_data. rewrite on_text_eq.
  specialize (IH {| buffer := fragment (buffer st +:+ toString c);
                    reasoningStarted :=
                      fst (forEach_line (reasoningStarted st)
                             (complete_lines (buffer st +:+ toString c))) |}).
  destruct (on_chunks _ chunks) as [st2 o2]. simpl in *.
  apply Forall_app. split; [apply forEach_line_written | exact IH].
Qed.

Lemma forEach_line_length rs lines :
  length (snd (forEach_line rs lines)) =
  length (filter (fun l => startsWith "data: " l = true) lines).
Proof.
  revert rs. induction lines as [|line lines IH]; intros rs; simpl; [reflexivity|].
  rewrite filter_cons.
  assert (H : length (snd (on_line rs line)) =
              if startsWith "data: " line then 1 else 0).
  { unfold on_line. destruct (startsWith "data: " line); [|reflexivity].
    destruct (includes "[DONE]" line); [reflexivity|].
    destruct (JSON_parse (slice 6 line)) as [data|]; [|reflexivity].
    now destruct (reshape SHOW_REASONING rs data) as [rs' [data'|]]. }
  destruct (on_line rs line) as [rs1 o1]. specialize (IH rs1).
  destruct (forEach_line rs1 lines) as [rs2 o2]. simpl in *.
  rewrite length_app, IH, H.
  destruct (startsWith "data: " line); case_decide; simpl; congruence.
Qed.

(** X3. After any chunks, the buffer is exactly the text received behind
    the last line separator, and one event has been written for each
    complete line that carries the event prefix: none is dropped, none is
    written twice, and no other line is written. *)
Theorem X3_one_write_per_candidate_line chunks :
  let text := String.concat "" (map toString chunks) in
  buffer (fst (on_chunks initial chunks)) = fragment text /\
  length (snd (on_chunks initial chunks)) =
  length (filter (fun l => startsWith "data: " l = true) (complete_lines text)).
Proof.
  intros text. rewrite on_chunks_texts.
  rewrite on_texts_concat by (split; reflexivity). fold text.
  rewrite on_text_eq. simpl. split; [reflexivity | apply forEach_line_length].
Qed.

Lemma on_chunks_app st chunks1 chunks2 :
  on_chunks st (chunks1 ++ chunks2) =
  (fst (on_chunks (fst (on_chunks st chunks1)) chunks2),
   (snd (on_chunks st chunks1) ++ snd (on_chunks (fst (on_chunks st chunks1)) chunks2))%list).
Proof.
  revert st. induction chunks1 as [|c chunks1 IH]; intros st; simpl.
  - now destruct (on_chunks st chunks2).
  - destruct (on_data JSON_parse JSON_stringify SHOW_REASONING st c) as [st1 o1].
    rewrite IH. destruct (on_chunks st1 chunks1) as [st2 o2]. simpl.
    destruct (on_chunks st2 chunks2) as [st3 o3]. simpl.
    now rewrite app_assoc.
Qed.

(** X4. A last line that the backend does not close with a line separator
    is never written: when the stream ends, a response that stops at a line
    boundary and the same response followed by an unterminated tail (be it
    the terminator) have written the same. *)
Theorem X4_unterminated_tail_is_dropped chunks tail :
  buffer (fst (on_chunks initial chunks)) = "" ->
  includes nl (toString tail) = false ->
  response_writes (chunks ++ [tail]) = response_writes chunks.
Proof.
  intros Hb Hnl. unfold response_writes, on_end.
  rewrite on_chunks_app.
  destruct (on_chunks initial chunks) as [st o]. simpl in *.
  unfold on_data. rewrite on_text_eq, Hb.
  change ("" +:+ toString tail) with (toString tail).
  destruct (cut_no_separator _ Hnl) as [-> ->]. simpl.
  now rewrite !app_nil_r.
Qed.
End StreamExtras.

Lemma reshape_off_state rs data : fst (reshape false rs data) = rs.
Proof.
  unfold reshape. destruct (delta_of data) as [[delta|]|]; try reflexivity.
  now destruct (truthy (Some delta)).
Qed.

(** X5. With the reasoning display off, [reasoningStarted] never moves,
    whatever the backend sends. *)
Theorem X5_display_off_keeps_state
    (JSON_parse : string -> option json) (JSON_stringify : json -> string)
    (st : stream_state) (chunks : list (list byte)) :
  reasoningStarted (fst (on_chunks JSON_parse JSON_stringify false st chunks)) =
  reasoningStarted st.
Proof.
  assert (Hline : forall rs line,
             fst (on_line JSON_parse JSON_stringify false rs line) = rs).
  { intros rs line. unfold on_line.
    destruct (startsWith "data: " line); [|reflexivity].
    destruct (includes "[DONE]" line); [reflexivity|].
    destruct (JSON_parse (slice 6 line)) as [data|]; [|reflexivity].
    pose proof (reshape_off_state rs data) as E.
    now destruct (reshape false rs data) as [rs' [data'|]]. }
  assert (Hlines : forall lines rs,
             fst (forEach_line JSON_parse JSON_stringify false rs lines) = rs).
  { induction lines as [|line lines IH]; intros rs; simpl; [reflexivity|].
    specialize (Hline rs line).
    destruct (on_line JSON_parse JSON_stringify false rs line) as [rs1 o1].
    specialize (IH rs1).
    destruct (forEach_line JSON_parse JSON_stringify false rs1 lines) as [rs2 o2].
    simpl in *. congruence. }
  revert st. induction chunks as [|c chunks IH]; intros st; simpl; [reflexivity|].
  unfold on_data. rewrite on_text_eq.
  match goal with |- context [on_chunks _ _ _ ?s chunks] => specialize (IH s) end.
  destruct (on_chunks JSON_parse JSON_stringify false _ chunks) as [st2 o2].
  simpl in *. now rewrite IH, Hlines.
Qed.

Lemma reshape_delta_object show rs fs delta' :
  snd (reshape_delta show rs (JObj fs)) = Normal delta' ->
  exists fs',
    delta' = JObj fs' /\
    forall k, k <> "content" -> k <> "reasoning_content" ->
              assoc_get k fs' = assoc_get k fs.
Proof.
  unfold reshape_delta. destruct show.
  - destruct (combine rs _ _) as [rs1 [cc|]]; [|discriminate].
    destruct (truthy (Some cc)); intros [= <-].
    + eexists. split; [reflexivity|]. intros k Hc Hr.
      now rewrite assoc_get_delete_ne, assoc_get_set_ne.
    + eexists. split; reflexivity.
  - intros [= <-]. eexists. split; [reflexivity|]. intros k Hc Hr.
    now rewrite assoc_get_delete_ne, assoc_get_set_ne.
Qed.

Lemma reshape_delta_Throw show rs fs :
  snd (reshape_delta show rs (JObj fs)) = Throw ->
  show = true /\
  (convertible (assoc_get "reasoning_content" fs) = false \/
   convertible (assoc_get "content" fs) = false).
Proof.
  destruct show; [|discriminate]. rewrite reshape_delta_on. cbn [snd].
  destruct (snd (combine rs _ _)) eqn:E; [discriminate|].
  intros _. split; [reflexivity|]. exact (combine_Throw rs _ _ E).
Qed.

(** What writing a delta back leaves alone. *)
Lemma update_delta_frame data d d' :
  delta_of data = Normal (Some d) ->
  (forall k, k <> "choices" -> get k (update_delta (fun _ => d') data) = get k data) /\
  (forall k, k <> "delta" ->
     choice_field k (update_delta (fun _ => d') data) = choice_field k data) /\
  (forall c l, get "choices" data = Some (JArr (c :: l)) ->
     exists c', get "choices" (update_delta (fun _ => d') data) = Some (JArr (c' :: l))).
Proof.
  intros H. destruct data as [| | | | |fs]; simpl in H; try discriminate.
  unfold update_delta, choice_field, first_choice. simpl in *.
  destruct (assoc_get "choices" fs) as [choices|] eqn:Hc; [|discriminate].
  destruct choices as [| | |s|l|cfs]; simpl in *; try discriminate.
  - destruct (String.eqb s ""); discriminate.
  - destruct l as [|choice l]; simpl in *; [discriminate|].
    destruct choice as [| | | | |hfs]; simpl in *; try discriminate.
    injection H as H. rewrite H. simpl. rewrite assoc_get_set_eq. simpl.
    split; [|split].
    + intros k Hk. now rewrite assoc_get_set_ne.
    + intros k Hk. now rewrite assoc_get_set_ne.
    + intros c l' [= <- <-]. eauto.
  - destruct (assoc_get "0" cfs) as [choice|] eqn:H0; [|discriminate].
    destruct choice as [| | | | |hfs]; simpl in *; try discriminate.
    injection H as H. rewrite H. simpl. rewrite assoc_get_set_eq. simpl.
    rewrite assoc_get_set_eq.
    split; [|split].
    + intros k Hk. now rewrite assoc_get_set_ne.
    + intros k Hk. simpl. now rewrite assoc_get_set_ne.
    + intros c l' [=].
Qed.

(** X6. A decoded event with an object delta is either written re-encoded
    or, when the display is on and the reasoning or the content has no
    conversion to text, forwarded as the line it came in.  Re-encoding
    touches two fields only: every other field of the delta, every field of
    the first choice but its delta, every top-level field of the payload
    but [choices], and every choice behind the first are emitted as they
    came, in both display modes. *)
Theorem X6_other_fields_are_kept (JSON_parse : string -> option json)
    (JSON_stringify : json -> string) (show rs : bool) line data fs :
  decodes_to JSON_parse line data ->
  delta_of data = Normal (Some (JObj fs)) ->
  (exists data' fs',
     snd (on_line JSON_parse JSON_stringify show rs line) =
       ["data: " +:+ JSON_stringify data' +:+ nl +:+ nl] /\
     delta_of data' = Normal (Some (JObj fs')) /\
     (forall k, k <> "content" -> k <> "reasoning_content" ->
                assoc_get k fs' = assoc_get k fs) /\
     (forall k, k <> "delta" -> choice_field k data' = choice_field k data) /\
     (forall k, k <> "choices" -> get k data' = get k data) /\
     (forall c l, get "choices" data = Some (JArr (c :: l)) ->
                  exists c', get "choices" data' = Some (JArr (c' :: l)))) \/
  (snd (on_line JSON_parse JSON_stringify show rs line) = [line +:+ nl] /\
   show = true /\
   (convertible (assoc_get "reasoning_content" fs) = false \/
    convertible (assoc_get "content" fs) = false)).
Proof.
  intros Hline H.
  rewrite (on_line_decoded JSON_parse JSON_stringify show rs line data Hline). cbn [snd].
  rewrite (reshape_object show rs data fs H). cbn [snd].
  destruct (snd (reshape_delta show rs (JObj fs))) as [delta'|] eqn:E.
  - left. destruct (reshape_delta_object show rs fs delta' E) as (fs' & -> & Hkeep).
    exists (update_delta (fun _ => JObj fs') data), fs'.
    split; [reflexivity|].
    split; [now apply (delta_of_update data (JObj fs))|].
    split; [exact Hkeep|].
    destruct (update_delta_frame data (JObj fs) (JObj fs') H) as (H1 & H2 & H3).
    split; [exact H2|]. split; [exact H1 | exact H3].
  - right. split; [reflexivity|]. exact (reshape_delta_Throw show rs fs E).
Qed.



(** X23. With the display on, a decoded delta that carries a reasoning text
    and a content that has no conversion to text (a parsed object with a
    member named [toString]) is forwarded as the line it came in, followed
    by one line separator, and leaves [reasoningStarted] true: the
    concatenation throws before the assignment that would close the
    segment. *)
Theorem X23_failed_conversion_leaves_the_segment_open
    (JSON_parse : string -> option json) (JSON_stringify : json -> string)
    (rs : bool) line data fs :
  decodes_to JSON_parse line data ->
  delta_of data = Normal (Some (JObj fs)) ->
  truthy (assoc_get "reasoning_content" fs) = true ->
  convertible (assoc_get "reasoning_content" fs) = true ->
  truthy (assoc_get "content" fs) = true ->
  convertible (assoc_get "content" fs) = false ->
  on_line JSON_parse JSON_stringify true rs line = (true, [line +:+ nl]).
Proof.
  intros Hline Hdelta Htr Hcr Htc Hcc.
  rewrite (on_line_decoded JSON_parse JSON_stringify true rs line data Hline).
  rewrite (reshape_object true rs data fs Hdelta). cbn [fst snd].
  rewrite reshape_delta_on. cbn [fst snd].
  unfold convertible in Hcr, Hcc.
  destruct (ToString_value (assoc_get "reasoning_content" fs)) as [r|] eqn:Er;
    [|discriminate].
  destruct (ToString_value (assoc_get "content" fs)) as [c|] eqn:Ec;
    [discriminate|].
  assert (E : combine rs (assoc_get "reasoning_content" fs) (assoc_get "content" fs) =
              (true, Throw)).
  { unfold combine. rewrite Htr, Htc.
    destruct rs; simpl andb; cbv iota; rewrite ?Er; simpl andb; cbv iota;
      now rewrite Ec. }
  rewrite E. reflexivity.
Qed.

(** The stream [data: [DONE]\n] cut three ways. *)
Lemma X1_chunking_invariant_witness :
  let whole := list_byte_of_string ("data: [DONE]" +:+ nl) in
  let chunks1 := [take 3 whole; drop 3 whole] in
  let chunks2 := [take 7 whole; take 2 (drop 7 whole); drop 9 whole] in
  concat chunks1 = concat chunks2 /\
  Forall (fun c => utf8_end Idle c = Idle) chunks1 /\
  Forall (fun c => utf8_end Idle c = Idle) chunks2 /\
  on_chunks (parse_table []) stringify_content false initial chunks1 =
  on_chunks (parse_table []) stringify_content false initial chunks2.
Proof.
  intros whole chunks1 chunks2.
  assert (H0 : concat chunks1 = concat chunks2) by reflexivity.
  assert (H1 : Forall (fun c => utf8_end Idle c = Idle) chunks1)
    by (repeat constructor).
  assert (H2 : Forall (fun c => utf8_end Idle c = Idle) chunks2)
    by (repeat constructor).
  split; [exact H0|]. split; [exact H1|]. split; [exact H2|].
  exact (X1_chunking_invariant (parse_table []) stringify_content false
           chunks1 chunks2 H0 H1 H2).
Defined.

(** A response that is the terminator without its line separator. *)
Lemma X4_unterminated_tail_is_dropped_witness :
  let tail := list_byte_of_string "data: [DONE]" in
  buffer (fst (on_chunks (parse_table []) stringify_content false initial [])) = "" /\
  includes nl (toString tail) = false /\
  response_writes (parse_table []) stringify_content false [tail] = [].
Proof.
  intros tail.
  split; [reflexivity|]. split; [reflexivity|].
  exact (X4_unterminated_tail_is_dropped (parse_table []) stringify_content false
           [] tail eq_refl eq_refl).
Defined.

Lemma X6_other_fields_are_kept_witness :
  let JSON_parse := parse_table [(framed_payload, framed_event)] in
  let line := "data: " +:+ framed_payload in
  decodes_to JSON_parse line framed_event /\
  delta_of framed_event = Normal (Some (JObj framed_delta)) /\
  exists data',
    snd (on_line JSON_parse stringify_content false false line) =
      ["data: " +:+ stringify_content data' +:+ nl +:+ nl] /\
    get "id" data' = Some (JStr "cmpl-1") /\
    choice_field "finish_reason" data' = Some JNull /\
    exists c', get "choices" data' =
               Some (JArr [c'; JObj [("index", JNum "1");
                                     ("delta", JObj [("reasoning_content", JStr "s")])]]).
Proof.
  intros JSON_parse line.
  assert (Hl : decodes_to JSON_parse line framed_event) by (repeat split; reflexivity).
  assert (H : delta_of framed_event = Normal (Some (JObj framed_delta))) by reflexivity.
  split; [exact Hl|]. split; [exact H|].
  destruct (X6_other_fields_are_kept JSON_parse stringify_content false false
              line framed_event framed_delta Hl H)
    as [(data' & fs' & Hw & _ & _ & Hc & Hd & Hk)|(_ & Hshow & _)];
    [|discriminate Hshow].
  exists data'. split; [exact Hw|].
  split; [now rewrite Hd|]. split; [now rewrite Hc|].
  exact (Hk _ _ eq_refl).
Defined.


Lemma X23_failed_conversion_leaves_the_segment_open_witness :
  let data := event (JObj unconvertible_delta) in
  let JSON_parse := parse_table [(unconvertible_payload, data)] in
  let line := "data: " +:+ unconvertible_payload in
  decodes_to JSON_parse line data /\
  on_line JSON_parse stringify_content true false line = (true, [line +:+ nl]).
Proof.
  intros data JSON_parse line.
  assert (Hl : decodes_to JSON_parse line data) by (repeat split; reflexivity).
  split; [exact Hl|].
  exact (X23_failed_conversion_leaves_the_segment_open JSON_parse stringify_content false
           line data unconvertible_delta Hl eq_refl eq_refl eq_refl eq_refl eq_refl).
Defined.

(** ** The loader and the matcher *)

Lemma endsWith_nonempty p s : p <> "" -> endsWith p s = true -> s <> "".
Proof.
  intros Hp H ->. simpl in H. rewrite orb_false_r in H.
  apply String.eqb_eq in H. contradiction.
Qed.

(** X8. Every lorebook in [LOREBOOK_DATA] comes from a file of the
    directory whose name ends in [.json], that parsed and has an [entries]
    field, and was loaded with the lorebook enabled; its title and its
    author are never empty, the file name and [Unknown] standing in for a
    missing or empty one. *)
Theorem X8_loaded_lorebooks (ENABLE_LOREBOOK : bool)
    (lorebooksDir : option (list (string * option LoreFile.t))) (lorebook : Lorebook.t) :
  In lorebook (loadLorebooks ENABLE_LOREBOOK lorebooksDir) ->
  ENABLE_LOREBOOK = true /\
  Lorebook.title lorebook <> "" /\
  Lorebook.author lorebook <> "" /\
  exists dir file data,
    lorebooksDir = Some dir /\ In (file, Some data) dir /\
    endsWith ".json" file = true /\
    LoreFile.entries data = Some (Lorebook.entries lorebook) /\
    (forall t, LoreFile.title data = Some t -> t <> "" -> Lorebook.title lorebook = t) /\
    (LoreFile.title data = None -> Lorebook.title lorebook = file).
Proof.
  unfold loadLorebooks. destruct ENABLE_LOREBOOK; [|intros []].
  destruct lorebooksDir as [dir|]; [|intros []]. simpl negb. cbv iota.
  intros H. apply in_flat_map in H as ([file parsed] & Hin & Hlb).
  apply list_elem_of_In, list_elem_of_filter in Hin as [Hjson Hin].
  apply list_elem_of_In in Hin. simpl in Hjson.
  unfold loadLorebook in Hlb. simpl in Hlb.
  destruct parsed as [data|]; [|destruct Hlb].
  destruct (LoreFile.entries data) as [entries|] eqn:He; [|destruct Hlb].
  destruct Hlb as [<-|[]]. simpl.
  assert (Hfile : file <> "") by (apply (endsWith_nonempty ".json"); [discriminate | assumption]).
  split; [reflexivity|]. split; [|split].
  - destruct (LoreFile.title data) as [t|]; [|assumption].
    destruct (String.eqb t "") eqn:E; [assumption | now apply String.eqb_neq].
  - destruct (LoreFile.author data) as [a|]; [|discriminate].
    destruct (String.eqb a "") eqn:E; [discriminate | now apply String.eqb_neq].
  - exists dir, file, data. split; [reflexivity|]. split; [assumption|].
    split; [assumption|]. split; [exact He|]. split.
    + intros t -> Ht. apply String.eqb_neq in Ht. now rewrite Ht.
    + now intros ->.
Qed.

Lemma X8_loaded_lorebooks_witness :
  let dir := Some [("atlas.json", Some atlas_json); ("notes.txt", None)] in
  In atlas (loadLorebooks true dir) /\
  Lorebook.title atlas <> "" /\ Lorebook.author atlas <> "".
Proof.
  intros dir.
  assert (H : In atlas (loadLorebooks true dir)) by (left; reflexivity).
  split; [exact H|].
  destruct (X8_loaded_lorebooks true dir atlas H) as (_ & Ht & Ha & _).
  split; assumption.
Defined.

Section MatcherExtras.
Variable toLowerCase : string -> string.
Variable trim : string -> string.

Local Abbreviation disabled_set := (disabledLorebooks toLowerCase trim).
Local Abbreviation active_set := (activeLorebooks toLowerCase trim).
Local Abbreviation find := (findRelevantLoreEntries toLowerCase trim).

Lemma activeLorebooks_spec text t :
  t ∈ active_set text <->
  exists d, In d (activationMatches text) /\
            t = toLowerCase (trim (strip_directive "<LOREBOOK:" d)).
Proof.
  unfold activeLorebooks. rewrite elem_of_list_to_set, list_elem_of_In, in_map_iff.
  split; intros (d & H1 & H2); exists d; auto.
Qed.

Lemma activeLorebooks_size text :
  (size (active_set text) =? 0)%nat = true <-> activationMatches text = [].
Proof.
  rewrite Nat.eqb_eq, size_empty_iff. split.
  - intros Hempty. destruct (activationMatches text) as [|d l] eqn:E; [reflexivity|].
    exfalso.
    apply (not_elem_of_empty (C:=gset string)
             (toLowerCase (trim (strip_directive "<LOREBOOK:" d)))).
    apply Hempty, activeLorebooks_spec. exists d. rewrite E.
    split; [now left | reflexivity].
  - intros E. unfold activeLorebooks. rewrite E. reflexivity.
Qed.

(** What a source must be for the matcher to push one of its entries. *)
Lemma pushed_by_lorebook_full text lower lb r :
  In r (pushed_by_lorebook toLowerCase text lower (active_set text) (disabled_set text)
          (size (active_set text) =? 0)%nat lb) ->
  (toLowerCase (Lorebook.title lb) ∉ disabled_set text) /\
  (activationMatches text = [] \/ toLowerCase (Lorebook.title lb) ∈ active_set text) /\
  exists e ks, In e (Object_values (Lorebook.entries lb)) /\
               LoreEntry.keys e = Some ks /\
               hasMatch toLowerCase text lower e ks = true /\
               LoreEntry.content e <> "" /\
               r = relevant lb e.
Proof.
  unfold pushed_by_lorebook.
  case_bool_decide as Hd; [intros []|].
  destruct (size (active_set text) =? 0)%nat eqn:Hs.
  - simpl. intros Hr. split; [exact Hd|]. split; [left; now apply activeLorebooks_size|].
    unfold pushed_by_entries in Hr. apply in_flat_map in Hr as (e & He & Hr).
    apply pushed_by_entry_inv in Hr as (-> & ks & Hk & Hm & Hc).
    exists e, ks. auto.
  - simpl. case_bool_decide as Ha; [|intros []].
    simpl. intros Hr. split; [exact Hd|]. split; [right; exact Ha|].
    unfold pushed_by_entries in Hr. apply in_flat_map in Hr as (e & He & Hr).
    apply pushed_by_entry_inv in Hr as (-> & ks & Hk & Hm & Hc).
    exists e, ks. auto.
Qed.

Lemma find_inv ENABLE_LOREBOOK LOREBOOK_DATA messages r :
  In r (find ENABLE_LOREBOOK LOREBOOK_DATA messages) ->
  ENABLE_LOREBOOK = true /\
  exists lb, In lb LOREBOOK_DATA /\
    In r (pushed_by_lorebook toLowerCase (conversationText messages)
            (toLowerCase (conversationText messages))
            (active_set (conversationText messages))
            (disabled_set (conversationText messages))
            (size (active_set (conversationText messages)) =? 0)%nat lb).
Proof.
  unfold findRelevantLoreEntries.
  destruct ENABLE_LOREBOOK; [|intros []]. simpl negb. cbv iota beta.
  destruct (length LOREBOOK_DATA =? 0)%nat; [intros []|]. simpl orb. cbv iota.
  intros Hr. split; [reflexivity|].
  apply (Permutation_in _ (sort_Permutation Relevant.order _)) in Hr.
  now apply in_flat_map in Hr.
Qed.

(** X9. Once the conversation holds an activation directive, a source that
    none of the activation directives names contributes nothing to the
    result. *)
Theorem X9_activation_restricts (ENABLE_LOREBOOK : bool)
    (LOREBOOK_DATA : list Lorebook.t) (messages : list Message.t)
    (lorebook : Lorebook.t) :
  let text := conversationText messages in
  activationMatches text <> [] ->
  (forall d, In d (activationMatches text) ->
     toLowerCase (trim (strip_directive "<LOREBOOK:" d)) <>
     toLowerCase (Lorebook.title lorebook)) ->
  forall r, In r (find ENABLE_LOREBOOK LOREBOOK_DATA messages) ->
            Relevant.lorebook r <> Lorebook.title lorebook.
Proof.
  intros text Hsome Hnone r Hr Heq.
  apply find_inv in Hr as (_ & lb & _ & Hr).
  apply pushed_by_lorebook_full in Hr as (_ & [Hact|Hact] & e & ks & _ & _ & _ & _ & ->).
  - contradiction.
  - simpl in Heq. rewrite Heq in Hact.
    apply activeLorebooks_spec in Hact as (d & Hd & Ht).
    now apply (Hnone d Hd).
Qed.

(** X10. For every conversation the result ascends in [order], and every
    entry in it is owed to an entry of a loaded source whose key matches
    and whose content is not empty, the source being neither disabled nor,
    when activation directives are present, left unnamed by them; with the
    lorebook disabled the result is empty. *)
Theorem X10_result_is_sound_and_sorted (ENABLE_LOREBOOK : bool)
    (LOREBOOK_DATA : list Lorebook.t) (messages : list Message.t) :
  let text := conversationText messages in
  let lower := toLowerCase text in
  let result := find ENABLE_LOREBOOK LOREBOOK_DATA messages in
  StronglySorted (fun a b => (Relevant.order a <= Relevant.order b)%Z) result /\
  (ENABLE_LOREBOOK = false -> result = []) /\
  (forall r, In r result ->
     exists lb e ks,
       In lb LOREBOOK_DATA /\
       In e (Object_values (Lorebook.entries lb)) /\
       LoreEntry.keys e = Some ks /\
       hasMatch toLowerCase text lower e ks = true /\
       LoreEntry.content e <> "" /\
       r = relevant lb e /\
       (toLowerCase (Lorebook.title lb) ∉ disabled_set text) /\
       (activationMatches text = [] \/ toLowerCase (Lorebook.title lb) ∈ active_set text)).
Proof.
  intros text lower result. split; [|split].
  - unfold result, findRelevantLoreEntries.
    destruct (negb ENABLE_LOREBOOK || (length LOREBOOK_DATA =? 0)%nat); [constructor|].
    apply (sort_sorted Relevant.order).
  - now intros ->.
  - intros r Hr. apply find_inv in Hr as (_ & lb & Hlb & Hr).
    apply pushed_by_lorebook_full in Hr as (Hd & Ha & e & ks & He & Hk & Hm & Hc & ->).
    exists lb, e, ks. repeat (split; [assumption|]). split; [reflexivity|].
    split; assumption.
Qed.
End MatcherExtras.

Lemma X9_activation_restricts_witness :
  let messages := [user "A gull over the harbour. <LOREBOOK:bestiary>"] in
  let text := conversationText messages in
  let result := findRelevantLoreEntries ascii_toLowerCase ascii_trim true
                  [atlas; bestiary] messages in
  activationMatches text <> [] /\
  (forall d, In d (activationMatches text) ->
     ascii_toLowerCase (ascii_trim (strip_directive "<LOREBOOK:" d)) <>
     ascii_toLowerCase (Lorebook.title atlas)) /\
  (forall r, In r result -> Relevant.lorebook r <> "Atlas") /\
  result = [relevant bestiary (entry "gull" "Gulls nest on the tower." 5)].
Proof.
  intros messages text result.
  assert (H1 : activationMatches text <> []) by (vm_compute; discriminate).
  assert (H2 : forall d, In d (activationMatches text) ->
            ascii_toLowerCase (ascii_trim (strip_directive "<LOREBOOK:" d)) <>
            ascii_toLowerCase (Lorebook.title atlas)).
  { intros d Hd. vm_compute in Hd. destruct Hd as [<-|[]]. vm_compute. discriminate. }
  split; [exact H1|]. split; [exact H2|]. split; [|vm_compute; reflexivity].
  exact (X9_activation_restricts ascii_toLowerCase ascii_trim true
           [atlas; bestiary] messages atlas H1 H2).
Defined.

(** ** The directive patterns *)

Lemma length_append (a b : string) :
  String.length (a +:+ b) = String.length a + String.length b.
Proof.
  induction a as [|h a IH]; [reflexivity|].
  rewrite append_cons. simpl. now rewrite IH.
Qed.

Lemma canonicalize_lt c : regex_canonicalize c = "<"%char -> c = "<"%char.
Proof.
  destruct c as [[] [] [] [] [] [] [] []]; vm_compute; intros H;
    first [reflexivity | discriminate H].
Qed.

Lemma lacks_app c a b : lacks c (a +:+ b) = lacks c a && lacks c b.
Proof.
  induction a as [|x a IH]; [reflexivity|].
  rewrite append_cons. simpl. now rewrite IH, andb_assoc.
Qed.

Lemma lacks_cons c x s :
  lacks c (String x s) = true -> x <> c /\ lacks c s = true.
Proof.
  simpl. intros H. apply andb_true_iff in H as [Hx Hs].
  apply negb_true_iff, Ascii.eqb_neq in Hx. now split.
Qed.

Lemma prefix_ci_lt m c s : prefix_ci (String "<" m) (String c s) = true -> c = "<"%char.
Proof.
  cbn [prefix_ci]. intros H. apply andb_true_iff in H as [H _].
  apply Ascii.eqb_eq in H. apply canonicalize_lt. now rewrite <- H.
Qed.

Lemma match_here_lacks m c s : c <> "<"%char -> match_here (String "<" m) (String c s) = None.
Proof.
  intros Hc. unfold match_here.
  destruct (prefix_ci (String "<" m) (String c s)) eqn:E; [|reflexivity].
  apply prefix_ci_lt in E. contradiction.
Qed.

(** Where no [<] stands, no directive starts. *)
Lemma match_from_lacks m a s :
  lacks "<" a = true ->
  match_from (String "<" m) 0 (a +:+ s) = match_from (String "<" m) 0 s.
Proof.
  induction a as [|x a IH]; intros H; [reflexivity|].
  apply lacks_cons in H as [Hx Ha].
  rewrite append_cons. cbn [match_from].
  rewrite (match_here_lacks _ _ _ Hx). now apply IH.
Qed.

Lemma match_from_nil_lacks m a :
  lacks "<" a = true -> match_from (String "<" m) 0 a = [].
Proof.
  intros H. rewrite <- (append_nil_r a). now rewrite match_from_lacks.
Qed.

Lemma prefix_ci_app m mk rest : prefix_ci m mk = true -> prefix_ci m (mk +:+ rest) = true.
Proof.
  revert mk. induction m as [|a m IH]; intros mk H; [reflexivity|].
  destruct mk as [|b mk]; [discriminate|].
  rewrite append_cons. cbn [prefix_ci] in *.
  apply andb_true_iff in H as [H1 H2]. now rewrite H1, IH.
Qed.

Lemma slice_app mk rest : slice (String.length mk) (mk +:+ rest) = rest.
Proof. induction mk as [|c mk IH]; [reflexivity | exact IH]. Qed.

Lemma until_gt_app t b : lacks ">" t = true -> until_gt (t +:+ String ">" b) = Some t.
Proof.
  induction t as [|c t IH]; intros H; [reflexivity|].
  apply lacks_cons in H as [Hc Ht].
  rewrite append_cons. cbn [until_gt].
  apply Ascii.eqb_neq in Hc. now rewrite Hc, IH.
Qed.

Lemma substring_app x y : substring 0 (String.length x) (x +:+ y) = x.
Proof.
  induction x as [|c x IH]; [now destruct y|].
  rewrite append_cons. simpl. now rewrite IH.
Qed.

Lemma match_here_directive marker mk t b :
  spelling_of marker mk -> t <> "" -> lacks ">" t = true ->
  match_here marker (mk +:+ t +:+ ">" +:+ b) = Some (mk +:+ t +:+ ">").
Proof.
  intros [Hp Hl] Ht Hgt. unfold match_here.
  rewrite (prefix_ci_app _ _ _ Hp), <- Hl, slice_app.
  change (t +:+ ">" +:+ b) with (t +:+ String ">" b).
  rewrite (until_gt_app _ _ Hgt).
  apply String.eqb_neq in Ht. rewrite Ht. f_equal.
  replace (mk +:+ t +:+ String ">" b) with ((mk +:+ t +:+ ">") +:+ b)
    by now rewrite !append_assoc.
  replace (String.length mk + String.length t + 1)
    with (String.length (mk +:+ t +:+ ">")).
  - apply substring_app.
  - rewrite !length_append. simpl. lia.
Qed.

Lemma match_from_skip marker x b :
  match_from marker (String.length x) (x +:+ b) = match_from marker 0 b.
Proof. induction x as [|c x IH]; [reflexivity | exact IH]. Qed.

(** One directive in a text that holds no other [<]. *)
Lemma match_from_directive m mk t a b :
  spelling_of (String "<" m) mk -> t <> "" -> lacks ">" t = true ->
  lacks "<" a = true -> lacks "<" b = true ->
  match_from (String "<" m) 0 (a +:+ mk +:+ t +:+ ">" +:+ b) = [mk +:+ t +:+ ">"].
Proof.
  intros Hs Ht Hgt Ha Hb. rewrite (match_from_lacks _ _ _ Ha).
  pose proof (match_here_directive _ _ _ b Hs Ht Hgt) as Hh.
  destruct Hs as [Hp Hl]. destruct mk as [|c mk]; [discriminate|].
  rewrite !append_cons in *. cbn [match_from]. rewrite Hh. f_equal.
  change (String.length (String c (mk +:+ t +:+ ">")) - 1)
    with (String.length (mk +:+ t +:+ ">") - 0).
  rewrite Nat.sub_0_r.
  replace (mk +:+ t +:+ String ">" ("" +:+ b)) with ((mk +:+ t +:+ ">") +:+ b)
    by now rewrite !append_assoc.
  rewrite match_from_skip. now apply match_from_nil_lacks.
Qed.

Lemma strip_from_skip marker x y :
  strip_from marker (String.length x) (x +:+ y) = strip_from marker 0 y.
Proof. induction x as [|c x IH]; [reflexivity | exact IH]. Qed.

Lemma strip_from_title m t :
  lacks "<" t = true -> lacks ">" t = true ->
  strip_from (String "<" m) 0 (t +:+ ">") = t.
Proof.
  induction t as [|c t IH]; intros Hlt Hgt.
  - change ("" +:+ ">") with (String ">" ""). cbn [strip_from].
    destruct (prefix_ci (String "<" m) (String ">" "")) eqn:E; [|reflexivity].
    apply prefix_ci_lt in E. discriminate.
  - apply lacks_cons in Hlt as [Hc1 Hlt]. apply lacks_cons in Hgt as [Hc2 Hgt].
    rewrite append_cons. cbn [strip_from].
    destruct (prefix_ci (String "<" m) (String c (t +:+ ">"))) eqn:E.
    + apply prefix_ci_lt in E. contradiction.
    + apply Ascii.eqb_neq in Hc2. now rewrite Hc2, IH.
Qed.

Lemma strip_directive_title m mk t :
  spelling_of (String "<" m) mk ->
  lacks "<" t = true -> lacks ">" t = true ->
  strip_directive (String "<" m) (mk +:+ t +:+ ">") = t.
Proof.
  intros [Hp Hl] Hlt Hgt. unfold strip_directive.
  pose proof (prefix_ci_app _ _ (t +:+ ">") Hp) as Hpa.
  destruct mk as [|c mk]; [discriminate|].
  rewrite append_cons in *. cbn [strip_from]. rewrite Hpa.
  rewrite <- Hl.
  change (String.length (String c mk) - 1) with (String.length mk - 0).
  rewrite Nat.sub_0_r, strip_from_skip. now apply strip_from_title.
Qed.

(** A spelling of a marker has a [<] where the marker has one. *)
Lemma spelling_lacks m mk :
  prefix_ci m mk = true -> String.length mk = String.length m ->
  lacks "<" m = true -> lacks "<" mk = true.
Proof.
  revert mk. induction m as [|a m IH]; intros [|b mk] Hp Hl Hm; try discriminate.
  - reflexivity.
  - cbn [prefix_ci] in Hp. apply andb_true_iff in Hp as [Hab Hp].
    apply lacks_cons in Hm as [Ha Hm]. simpl in Hl. injection Hl as Hl.
    simpl. rewrite (IH mk Hp Hl Hm), andb_true_r.
    apply negb_true_iff, Ascii.eqb_neq. intros ->.
    apply Ascii.eqb_eq in Hab. apply Ha, canonicalize_lt. now rewrite Hab.
Qed.

Lemma match_from_step_none marker c s :
  match_here marker (String c s) = None ->
  match_from marker 0 (String c s) = match_from marker 0 s.
Proof. intros H. cbn [match_from]. now rewrite H. Qed.

(** A spelling of one marker is not taken for the other. *)
Lemma other_marker_absent m m' a1 a2 mk t a b :
  spelling_of (String "<" (String a1 m)) mk ->
  Ascii.eqb (regex_canonicalize a2) (regex_canonicalize a1) = false ->
  lacks "<" (String a1 m) = true ->
  lacks "<" t = true -> lacks "<" a = true -> lacks "<" b = true ->
  match_from (String "<" (String a2 m')) 0 (a +:+ mk +:+ t +:+ ">" +:+ b) = [].
Proof.
  intros [Hp Hl] Hne Hm Ht Ha Hb. rewrite (match_from_lacks _ _ _ Ha).
  destruct mk as [|c0 [|c1 mk]]; try discriminate.
  cbn [prefix_ci] in Hp.
  apply andb_true_iff in Hp as [_ Hp]. apply andb_true_iff in Hp as [Hc1 Hp].
  apply Ascii.eqb_eq in Hc1.
  change (String c0 (String c1 mk) +:+ t +:+ ">" +:+ b)
    with (String c0 (String c1 mk +:+ t +:+ ">" +:+ b)).
  assert (Htail : lacks "<" (String c1 mk) = true).
  { apply (spelling_lacks (String a1 m)).
    - cbn [prefix_ci]. apply Ascii.eqb_eq in Hc1. now rewrite Hc1.
    - simpl in *. lia.
    - exact Hm. }
  rewrite match_from_step_none.
  - apply match_from_nil_lacks. rewrite !lacks_app, Htail, Ht, Hb. reflexivity.
  - unfold match_here. rewrite append_cons. cbn [prefix_ci].
    rewrite <- Hc1, Hne. now rewrite andb_false_r.
Qed.

Section DirectiveExtras.
Variable toLowerCase : string -> string.
Variable trim : string -> string.

(** X11. A conversation text with one activation directive, its marker in
    any mix of cases, and no other [<]: the directive is the one match of
    the activation pattern, its title comes back as written between the
    marker and the [>], the set of active sources is that title trimmed and
    lower-cased, and the deactivation pattern finds nothing. *)
Theorem X11_activation_directive_parsed (a mk t b : string) :
  spelling_of "<LOREBOOK:" mk ->
  t <> "" -> lacks ">" t = true -> lacks "<" t = true ->
  lacks "<" a = true -> lacks "<" b = true ->
  let text := a +:+ mk +:+ t +:+ ">" +:+ b in
  activationMatches text = [mk +:+ t +:+ ">"] /\
  strip_directive "<LOREBOOK:" (mk +:+ t +:+ ">") = t /\
  activeLorebooks toLowerCase trim text = {[ toLowerCase (trim t) ]} /\
  disableMatches text = [] /\
  disabledLorebooks toLowerCase trim text = ∅.
Proof.
  intros Hs Ht Hgt Hlt Ha Hb text.
  assert (Hm : activationMatches text = [mk +:+ t +:+ ">"])
    by now apply match_from_directive.
  assert (Hstrip : strip_directive "<LOREBOOK:" (mk +:+ t +:+ ">") = t)
    by now apply strip_directive_title.
  assert (Hd : disableMatches text = []).
  { apply (other_marker_absent "OREBOOK:" "ISABLE_LOREBOOK:" "L" "D"); auto. }
  split; [exact Hm|]. split; [exact Hstrip|]. split; [|split; [exact Hd|]].
  - unfold activeLorebooks. rewrite Hm. simpl. rewrite Hstrip.
    apply union_empty_r_L.
  - unfold disabledLorebooks. now rewrite Hd.
Qed.

(** X12. A conversation text with one deactivation directive and no other
    [<]: the directive is the one match of the deactivation pattern, its
    title comes back as written, the set of disabled sources is that title
    trimmed and lower-cased; the activation pattern does not match inside
    it, so every loaded source stays active by default. *)
Theorem X12_deactivation_directive_parsed (a mk t b : string) :
  spelling_of "<DISABLE_LOREBOOK:" mk ->
  t <> "" -> lacks ">" t = true -> lacks "<" t = true ->
  lacks "<" a = true -> lacks "<" b = true ->
  let text := a +:+ mk +:+ t +:+ ">" +:+ b in
  disableMatches text = [mk +:+ t +:+ ">"] /\
  strip_directive "<DISABLE_LOREBOOK:" (mk +:+ t +:+ ">") = t /\
  disabledLorebooks toLowerCase trim text = {[ toLowerCase (trim t) ]} /\
  activationMatches text = [] /\
  (size (activeLorebooks toLowerCase trim text) =? 0)%nat = true.
Proof.
  intros Hs Ht Hgt Hlt Ha Hb text.
  assert (Hm : disableMatches text = [mk +:+ t +:+ ">"])
    by now apply match_from_directive.
  assert (Hstrip : strip_directive "<DISABLE_LOREBOOK:" (mk +:+ t +:+ ">") = t)
    by now apply strip_directive_title.
  assert (Hd : activationMatches text = []).
  { apply (other_marker_absent "ISABLE_LOREBOOK:" "OREBOOK:" "D" "L"); auto. }
  split; [exact Hm|]. split; [exact Hstrip|]. split; [|split; [exact Hd|]].
  - unfold disabledLorebooks. rewrite Hm. simpl. rewrite Hstrip.
    apply union_empty_r_L.
  - unfold activeLorebooks. now rewrite Hd.
Qed.
End DirectiveExtras.

Lemma X11_activation_directive_parsed_witness :
  let text := "Tell me. " +:+ "<LoreBook:" +:+ " Atlas " +:+ ">" +:+ " Thanks." in
  spelling_of "<LOREBOOK:" "<LoreBook:" /\
  activationMatches text = ["<LoreBook: Atlas >"] /\
  activeLorebooks ascii_toLowerCase ascii_trim text = {[ "atlas" ]}.
Proof.
  intros text.
  assert (Hs : spelling_of "<LOREBOOK:" "<LoreBook:") by (split; reflexivity).
  split; [exact Hs|].
  destruct (X11_activation_directive_parsed ascii_toLowerCase ascii_trim
              "Tell me. " "<LoreBook:" " Atlas " " Thanks." Hs
              ltac:(discriminate) eq_refl eq_refl eq_refl eq_refl)
    as (Hm & _ & Ha & _).
  split; [exact Hm | exact Ha].
Defined.

Lemma X12_deactivation_directive_parsed_witness :
  let text := "Tell me. " +:+ "<disable_LOREBOOK:" +:+ "Atlas" +:+ ">" +:+ "" in
  spelling_of "<DISABLE_LOREBOOK:" "<disable_LOREBOOK:" /\
  disableMatches text = ["<disable_LOREBOOK:Atlas>"] /\
  disabledLorebooks ascii_toLowerCase ascii_trim text = {[ "atlas" ]} /\
  activationMatches text = [].
Proof.
  intros text.
  assert (Hs : spelling_of "<DISABLE_LOREBOOK:" "<disable_LOREBOOK:") by (split; reflexivity).
  split; [exact Hs|].
  destruct (X12_deactivation_directive_parsed ascii_toLowerCase ascii_trim
              "Tell me. " "<disable_LOREBOOK:" "Atlas" "" Hs
              ltac:(discriminate) eq_refl eq_refl eq_refl eq_refl)
    as (Hm & _ & Hd & Ha & _).
  split; [exact Hm|]. split; [exact Hd | exact Ha].
Defined.

(** ** The injector *)

Lemma findIndex_None {A} (p : A -> bool) (l : list A) :
  findIndex p l = None <-> forallb (fun x => negb (p x)) l = true.
Proof.
  induction l as [|x l IH]; simpl; [tauto|].
  destruct (p x); simpl.
  - split; discriminate.
  - rewrite <- IH. destruct (findIndex p l); simpl; split; intros H;
      first [discriminate H | reflexivity].
Qed.

Lemma findIndex_Some {A} (p : A -> bool) (l : list A) i :
  findIndex p l = Some i ->
  exists pre m post,
    l = (pre ++ m :: post)%list /\ length pre = i /\ p m = true /\
    forallb (fun x => negb (p x)) pre = true.
Proof.
  revert i. induction l as [|x l IH]; intros i; simpl; [discriminate|].
  destruct (p x) eqn:Hx.
  - intros [= <-]. exists [], x, l. now repeat split.
  - destruct (findIndex p l) as [j|]; [|discriminate]. simpl. intros [= <-].
    destruct (IH j eq_refl) as (pre & m & post & -> & Hlen & Hm & Hpre).
    exists (x :: pre), m, post. simpl. rewrite Hx, Hlen, Hm, Hpre. now repeat split.
Qed.

Lemma findIndex_split {A} (p : A -> bool) (pre : list A) m post :
  forallb (fun x => negb (p x)) pre = true -> p m = true ->
  findIndex p (pre ++ m :: post) = Some (length pre).
Proof.
  intros Hpre Hm. induction pre as [|x pre IH]; simpl.
  - now rewrite Hm.
  - simpl in Hpre. apply andb_prop in Hpre as [Hx Hpre].
    apply negb_true_iff in Hx. now rewrite Hx, IH.
Qed.

Lemma alter_split {A} (f : A -> A) (pre : list A) m post :
  alter f (length pre) (pre ++ m :: post)%list = (pre ++ f m :: post)%list.
Proof. induction pre as [|x pre IH]; simpl; [reflexivity | now rewrite <- IH]. Qed.

Lemma remove_first_system_split pre m post :
  forallb (fun x => negb (is_system x)) pre = true -> is_system m = true ->
  remove_first_system (pre ++ m :: post) = (pre ++ post)%list.
Proof.
  intros Hpre Hm. induction pre as [|x pre IH]; simpl.
  - now rewrite Hm.
  - simpl in Hpre. apply andb_prop in Hpre as [Hx Hpre].
    apply negb_true_iff in Hx. now rewrite Hx, IH.
Qed.

Lemma remove_first_system_none l :
  forallb (fun x => negb (is_system x)) l = true -> remove_first_system l = l.
Proof.
  induction l as [|x l IH]; simpl; [reflexivity|].
  intros H. apply andb_prop in H as [Hx H]. apply negb_true_iff in Hx.
  now rewrite Hx, IH.
Qed.

Lemma append_context_changes ctx m : append_context ctx m <> m.
Proof.
  destruct m as [r c]. unfold append_context. simpl. intros [= H].
  apply (f_equal String.length) in H. rewrite !length_append in H.
  change (String.length nl) with 1 in H. simpl in H. lia.
Qed.

Section InjectorExtras.
Variable toLowerCase : string -> string.
Variable trim : string -> string.
Variable ENABLE_LOREBOOK : bool.
Variable LOREBOOK_DATA : list Lorebook.t.

Local Abbreviation find := (findRelevantLoreEntries toLowerCase trim ENABLE_LOREBOOK LOREBOOK_DATA).
Local Abbreviation inject := (injectLorebook toLowerCase trim ENABLE_LOREBOOK LOREBOOK_DATA).

Lemma inject_unmatched messages : find messages = [] -> inject messages = messages.
Proof.
  intros H. unfold injectLorebook. destruct (negb ENABLE_LOREBOOK); [reflexivity|].
  now rewrite H.
Qed.

Lemma inject_matched messages :
  find messages <> [] ->
  inject messages =
  match findIndex is_system messages with
  | Some i => alter (append_context (lorebookContext (find messages))) i messages
  | None => context_message (lorebookContext (find messages)) :: messages
  end.
Proof.
  intros H. unfold injectLorebook.
  destruct (negb ENABLE_LOREBOOK) eqn:He.
  - exfalso. apply H. unfold findRelevantLoreEntries. now rewrite He.
  - destruct (find messages) as [|r rs] eqn:Hf; [now contradict H|]. reflexivity.
Qed.

(** X13. Whatever the conversation and the lorebooks, the injector leaves
    every message but the first system message as it was and where it was:
    without their first system message the conversation before and after
    are the same list, every role is kept, and at most one message is
    added. *)
Theorem X13_only_the_first_system_message_changes (messages : list Message.t) :
  remove_first_system (inject messages) = remove_first_system messages /\
  (map Message.role (inject messages) = map Message.role messages \/
   map Message.role (inject messages) = "system" :: map Message.role messages).
Proof.
  destruct (find messages) as [|r rs] eqn:Hf.
  - rewrite (inject_unmatched _ Hf). split; [reflexivity | now left].
  - rewrite inject_matched by (rewrite Hf; discriminate).
    destruct (findIndex is_system messages) as [i|] eqn:Hi.
    + apply findIndex_Some in Hi as (pre & m & post & -> & <- & Hm & Hpre).
      rewrite alter_split. split.
      * rewrite !remove_first_system_split; trivial.
      * left. now rewrite !map_app.
    + apply findIndex_None in Hi. split; [|now right].
      change (messages = remove_first_system messages).
      now rewrite remove_first_system_none.
Qed.

(** X14. When some entry is relevant, the block of the relevant contents,
    joined by an empty line, goes to the first system message, after its
    own content and a heading; with no system message in the conversation
    a new system message that holds the heading and the block is put in
    front. *)
Theorem X14_where_the_context_goes (messages : list Message.t) :
  let lorebookContext := lorebookContext (find messages) in
  find messages <> [] ->
  (forall pre m post,
     messages = (pre ++ m :: post)%list ->
     forallb (fun x => negb (is_system x)) pre = true ->
     is_system m = true ->
     inject messages = (pre ++ append_context lorebookContext m :: post)%list) /\
  (forallb (fun x => negb (is_system x)) messages = true ->
   inject messages = context_message lorebookContext :: messages).
Proof.
  intros ctx Hf. split.
  - intros pre m post -> Hpre Hm. rewrite inject_matched by exact Hf.
    rewrite (findIndex_split is_system) by assumption.
    apply alter_split.
  - intros Hnone. rewrite inject_matched by exact Hf.
    apply findIndex_None in Hnone. now rewrite Hnone.
Qed.

(** X15. The injector returns the conversation as it was exactly when no
    entry is relevant: one matching entry is enough for the conversation
    sent to the backend to differ from the one received. *)
Theorem X15_unchanged_iff_nothing_relevant (messages : list Message.t) :
  inject messages = messages <-> find messages = [].
Proof.
  split; [|apply inject_unmatched].
  intros Heq. destruct (find messages) as [|r rs] eqn:Hf; [reflexivity|]. exfalso.
  rewrite inject_matched in Heq by (rewrite Hf; discriminate).
  destruct (findIndex is_system messages) as [i|] eqn:Hi.
  - apply findIndex_Some in Hi as (pre & m & post & -> & <- & Hm & Hpre).
    rewrite alter_split in Heq. apply app_inv_head in Heq.
    injection Heq as Heq. now apply append_context_changes in Heq.
  - apply (f_equal (@length Message.t)) in Heq. simpl in Heq. lia.
Qed.
End InjectorExtras.

Lemma X14_where_the_context_goes_witness :
  let find := findRelevantLoreEntries ascii_toLowerCase ascii_trim true [atlas; bestiary] in
  let inject := injectLorebook ascii_toLowerCase ascii_trim true [atlas; bestiary] in
  let question := user "Is there a gull in the harbour?" in
  let block := "The harbour freezes in winter." +:+ nl +:+ nl +:+ "Gulls nest on the tower." in
  find [question] <> [] /\
  lorebookContext (find [question]) = block /\
  inject [question; system "Be brief."; system "Be kind."] =
    [question;
     system ("Be brief." +:+ nl +:+ nl +:+ "[Lorebook Context]" +:+ nl +:+ block);
     system "Be kind."] /\
  inject [question] = [system ("[Lorebook Context]" +:+ nl +:+ block); question].
Proof.
  intros find inject question block. subst inject.
  assert (Hf : find [question] <> []) by (vm_compute; discriminate).
  split; [exact Hf|]. split; [reflexivity|]. split.
  - assert (Hs : find [question; system "Be brief."; system "Be kind."] <> [])
      by (vm_compute; discriminate).
    rewrite (proj1 (X14_where_the_context_goes ascii_toLowerCase ascii_trim true
                      [atlas; bestiary] _ Hs)
               [question] (system "Be brief.") [system "Be kind."] eq_refl eq_refl eq_refl).
    reflexivity.
  - rewrite (proj2 (X14_where_the_context_goes ascii_toLowerCase ascii_trim true
                      [atlas; bestiary] _ Hf) eq_refl).
    reflexivity.
Defined.

(** ** The response that is not streamed *)

Lemma map_choice_eq show choice message :
  get "message" choice = Some message -> message <> JNull ->
  map_choice show choice =
  match
    (if show && truthy (get "reasoning_content" message)
     then
       match ToString_value (get "reasoning_content" message),
             ToString (js_or (get "content" message) (JStr "")) with
       | Normal r, Normal c =>
           Normal (JStr (think_open +:+ r +:+ (nl +:+ think_close) +:+ c))
       | _, _ => Throw
       end
     else Normal (js_or (get "content" message) (JStr "")))
  with
  | Throw => Throw
  | Normal fullContent =>
      Normal {| Choice.index := get "index" choice;
                Choice.role := get "role" message;
                Choice.content := fullContent;
                Choice.finish_reason := get "finish_reason" choice |}
  end.
Proof.
  intros Hm Hn. unfold map_choice.
  destruct choice as [| | | | |fs]; try discriminate. rewrite Hm.
  destruct message; [contradiction | reflexivity ..].
Qed.

Lemma has_message_inv choice :
  has_message choice = true ->
  exists message, get "message" choice = Some message /\ message <> JNull.
Proof.
  unfold has_message. destruct (get "message" choice) as [message|]; [|discriminate].
  intros H. exists message. split; [reflexivity|]. now intros ->.
Qed.

Lemma map_choice_no_message show choice :
  has_message choice = false -> map_choice show choice = Throw.
Proof.
  unfold has_message, map_choice. destruct choice as [| | | | |fs]; try reflexivity.
  destruct (get "message" (JObj fs)) as [[]|]; first [reflexivity | discriminate].
Qed.

Lemma map_choice_spec show choice :
  match map_choice show choice with
  | Normal _ => has_message choice = true /\ (show = true -> displays choice = true)
  | Throw => has_message choice = false \/ (show = true /\ displays choice = false)
  end.
Proof.
  destruct (has_message choice) eqn:Hh.
  - destruct (has_message_inv choice Hh) as (message & Hm & Hn).
    rewrite (map_choice_eq show choice message Hm Hn).
    unfold displays, convertible. rewrite Hm. simpl ToString_value.
    destruct show; simpl andb; cbv iota; [|split; [reflexivity | discriminate]].
    destruct (truthy (get "reasoning_content" message)); simpl negb; simpl orb;
      [|now split].
    destruct (ToString_value (get "reasoning_content" message));
      destruct (ToString (js_or (get "content" message) (JStr "")));
      simpl andb; first [now split | right; now split].
  - rewrite (map_choice_no_message show choice Hh). now left.
Qed.

Lemma map_choices_spec show choices :
  match map_choices show choices with
  | Normal cs =>
      forallb has_message choices = true /\
      (show = true -> forallb displays choices = true) /\
      length cs = length choices
  | Throw =>
      forallb has_message choices = false \/
      (show = true /\ forallb displays choices = false)
  end.
Proof.
  induction choices as [|choice choices IH]; simpl; [now repeat split|].
  pose proof (map_choice_spec show choice) as Hc.
  destruct (map_choice show choice) as [c|].
  - destruct Hc as [-> Hd].
    destruct (map_choices show choices) as [cs|]; simpl.
    + destruct IH as (-> & Hds & ->). split; [reflexivity|]. split; [|reflexivity].
      intros Hs. now rewrite (Hd Hs), (Hds Hs).
    + destruct IH as [->|[Hs ->]]; [now left | right].
      split; [exact Hs | apply andb_false_r].
  - destruct Hc as [->|[Hs ->]]; [now left | right; now split].
Qed.

Lemma think_open_truthy s : truthy (Some (JStr (think_open +:+ s))) = true.
Proof. reflexivity. Qed.

(** X16. The content of a choice of the response that is not streamed is
    never [null], [false], zero or missing: it is the empty string or a
    value that counts as true, in either display mode. *)
Theorem X16_content_is_empty_or_truthy (show : bool) (choice : json) (c : Choice.t) :
  map_choice show choice = Normal c ->
  Choice.content c = JStr "" \/ truthy (Some (Choice.content c)) = true.
Proof.
  intros H. pose proof (map_choice_spec show choice) as Hs. rewrite H in Hs.
  destruct Hs as [Hh _]. destruct (has_message_inv choice Hh) as (message & Hm & Hn).
  rewrite (map_choice_eq show choice message Hm Hn) in H.
  destruct (show && truthy (get "reasoning_content" message)).
  - destruct (ToString_value (get "reasoning_content" message)) as [r|]; [|discriminate].
    destruct (ToString (js_or (get "content" message) (JStr ""))) as [t|]; [|discriminate].
    injection H as <-. right. apply think_open_truthy.
  - injection H as <-. cbn [Choice.content].
    destruct (get "content" message) as [j|]; [|now left]. unfold js_or.
    destruct (truthy (Some j)) eqn:Hj; [now right | now left].
Qed.

(** X17. The same message, with a reasoning text [r] and an answer [c], is
    rendered in two ways when the display is on: the response that is not
    streamed closes the reasoning with a line feed before the closing
    marker, the streamed one, where the message comes as one delta, closes
    it with the marker alone. *)
Theorem X17_closing_marker_differs (choice message : json) (r c : string) :
  get "message" choice = Some message ->
  get "reasoning_content" message = Some (JStr r) ->
  get "content" message = Some (JStr c) ->
  r <> "" -> c <> "" ->
  (exists ch, map_choice true choice = Normal ch /\
              Choice.content ch = JStr ("<think>" +:+ nl +:+ r +:+ nl +:+
                                        "</think>" +:+ nl +:+ nl +:+ c)) /\
  (exists delta', snd (reshape_delta true false message) = Normal delta' /\
                  get "content" delta' =
                  Some (JStr ("<think>" +:+ nl +:+ r +:+ "</think>" +:+ nl +:+ nl +:+ c))).
Proof.
  intros Hm Hr Hc Hr0 Hc0.
  assert (Htr : truthy (Some (JStr r)) = true).
  { simpl. apply negb_true_iff. now apply String.eqb_neq. }
  assert (Htc : truthy (Some (JStr c)) = true).
  { simpl. apply negb_true_iff. now apply String.eqb_neq. }
  assert (Hn : message <> JNull) by (intros ->; discriminate).
  split.
  - rewrite (map_choice_eq true choice message Hm Hn).
    rewrite Hr, Hc, Htr. rewrite (js_or_truthy _ _ Htc).
    simpl andb. cbv iota. simpl ToString_value. simpl ToString. cbv iota.
    eexists. split; [reflexivity|]. cbn [Choice.content].
    unfold think_open, think_close. now rewrite !append_assoc.
  - destruct message as [| | | | |fs]; try discriminate.
    rewrite reshape_delta_on. cbn [get] in Hr, Hc. rewrite Hr, Hc.
    assert (E : combine false (Some (JStr r)) (Some (JStr c)) =
                (false, Normal (JStr ((think_open +:+ r) +:+ (think_close +:+ c))))).
    { unfold combine. rewrite Htr, Htc. reflexivity. }
    rewrite E. cbn [snd].
    match goal with |- context [truthy ?x] => change (truthy x) with true end.
    eexists. split; [reflexivity|].
    cbn [get]. rewrite assoc_get_delete_ne by discriminate.
    rewrite assoc_get_set_eq.
    unfold think_open, think_close. now rewrite !append_assoc.
Qed.

Lemma X16_content_is_empty_or_truthy_witness :
  let choice := JObj [("index", JNum "0");
                      ("message", JObj [("role", JStr "assistant"); ("content", JNull)])] in
  exists c, map_choice true choice = Normal c /\ Choice.content c = JStr "" /\
            (Choice.content c = JStr "" \/ truthy (Some (Choice.content c)) = true).
Proof.
  intros choice. eexists. split; [reflexivity|]. split; [reflexivity|].
  apply (X16_content_is_empty_or_truthy true choice). reflexivity.
Defined.

Lemma X17_closing_marker_differs_witness :
  let message := JObj [("role", JStr "assistant"); ("content", JStr "4");
                       ("reasoning_content", JStr "2+2")] in
  let choice := JObj [("index", JNum "0"); ("message", message)] in
  (exists ch, map_choice true choice = Normal ch /\
              Choice.content ch = JStr ("<think>" +:+ nl +:+ "2+2" +:+ nl +:+
                                        "</think>" +:+ nl +:+ nl +:+ "4")) /\
  (exists delta', snd (reshape_delta true false message) = Normal delta' /\
                  get "content" delta' =
                  Some (JStr ("<think>" +:+ nl +:+ "2+2" +:+ "</think>" +:+ nl +:+ nl +:+ "4"))).
Proof.
  intros message choice.
  apply (X17_closing_marker_differs choice message "2+2" "4");
    first [reflexivity | discriminate].
Defined.

(** X18. A response that is not streamed is built exactly when the
    backend's [choices] is an array, each of its members has a [message]
    other than [null], and, with the display on, each reasoning that is
    shown and the content it is put in front of have a conversion to text;
    it then has one choice per member and names the model of the request.
    In every other case the handler's [catch] is reached. *)
Theorem X18_response_or_catch (show : bool) (now : N) (model : string) (data : json) :
  match openaiResponse show now model data with
  | Normal r =>
      exists choices,
        get "choices" data = Some (JArr choices) /\
        forallb has_message choices = true /\
        (show = true -> forallb displays choices = true) /\
        length (ChatCompletion.choices r) = length choices /\
        ChatCompletion.model r = model
  | Throw =>
      forall choices, get "choices" data = Some (JArr choices) ->
                      forallb has_message choices = false \/
                      (show = true /\ forallb displays choices = false)
  end.
Proof.
  unfold openaiResponse.
  assert (Hgen :
    match
      match get "choices" data with
      | Some (JArr choices) =>
          match map_choices show choices with
          | Throw => Throw
          | Normal cs =>
              Normal {| ChatCompletion.id := "chatcmpl-" +:+ decimal now;
                        ChatCompletion.object := "chat.completion";
                        ChatCompletion.created := (now / 1000)%N;
                        ChatCompletion.model := model;
                        ChatCompletion.choices := cs;
                        ChatCompletion.usage :=
                          js_or (get "usage" data)
                                (JObj [("prompt_tokens", JNum "0");
                                       ("completion_tokens", JNum "0");
                                       ("total_tokens", JNum "0")]) |}
          end
      | _ => Throw
      end
    with
    | Normal r =>
        exists choices,
          get "choices" data = Some (JArr choices) /\
          forallb has_message choices = true /\
          (show = true -> forallb displays choices = true) /\
          length (ChatCompletion.choices r) = length choices /\
          ChatCompletion.model r = model
    | Throw =>
        forall choices, get "choices" data = Some (JArr choices) ->
                        forallb has_message choices = false \/
                        (show = true /\ forallb displays choices = false)
    end).
  { destruct (get "choices" data) as [[| | | |choices|]|]; try discriminate.
    pose proof (map_choices_spec show choices) as H.
    destruct (map_choices show choices) as [cs|].
    - destruct H as (H1 & H2 & H3). exists choices.
      split; [reflexivity|]. split; [exact H1|]. split; [exact H2|]. now split.
    - now intros ? [= <-]. }
  destruct data; exact Hgen.
Qed.

(** ** The request and the way its answer is read *)

(** X19. The request sent to the backend asks for a stream exactly when
    the answer is read as a stream: a [stream] of the client that counts
    as true is passed on as it is, and any other one is sent as [false]
    and the answer is read as JSON. *)
Theorem X19_stream_flag_agrees (thinking : bool) (nimModel : string)
    (messages : list Message.t) (temperature max_tokens stream : value) :
  let request := nimRequest thinking nimModel messages temperature max_tokens stream in
  (responseType stream = "stream" /\ Some (NimRequest.stream request) = stream) \/
  (responseType stream = "json" /\ NimRequest.stream request = JBool false).
Proof.
  unfold responseType, nimRequest, js_or. simpl NimRequest.stream.
  destruct stream as [j|]; [|now right].
  destruct (truthy (Some j)); [now left | now right].
Qed.

(** ** Model selection *)

Lemma fallback_model_in toLowerCase model : In (fallback_model toLowerCase model) fallbacks.
Proof.
  unfold fallback_model, fallbacks.
  destruct (_ || _ || _); [now left|].
  destruct (_ || _ || _); [right; now left | right; right; now left].
Qed.

Lemma MODEL_MAPPING_get_Missing model :
  ~ In model listed_models -> ~ In model Object_prototype ->
  MODEL_MAPPING_get model = Missing.
Proof.
  intros Hl Hp. unfold MODEL_MAPPING_get.
  destruct (assoc_get model MODEL_MAPPING) as [id|] eqn:Hg.
  - exfalso. apply Hl. clear Hl Hp. revert Hg. unfold listed_models.
    generalize MODEL_MAPPING. intros l. induction l as [|[k v] l IH]; simpl; [discriminate|].
    destruct (String.eqb model k) eqn:E.
    + apply String.eqb_eq in E. now left.
    + intros H. right. now apply IH.
  - destruct (existsb (String.eqb model) Object_prototype) eqn:E; [|reflexivity].
    exfalso. apply Hp. apply existsb_exists in E as (x & Hx & E).
    apply String.eqb_eq in E. now subst x.
Qed.

(** X20. A model that [GET /v1/models] lists is sent to the backend under
    the name the table gives it, without a probe request: the status the
    backend would answer a probe with plays no part, nor does the case of
    the name. *)
Theorem X20_listed_models_need_no_probe (model : string) :
  In model listed_models ->
  exists id,
    In (model, id) MODEL_MAPPING /\
    forall toLowerCase probe, select_model toLowerCase probe model = Some id.
Proof.
  unfold listed_models. simpl.
  intros [<-|[<-|[<-|[<-|[<-|[<-|[<-|[]]]]]]]]; eexists;
    (split; [simpl; eauto 10 | intros toLowerCase probe; reflexivity]).
Qed.

(** X21. For a name that is neither listed nor a member that objects
    inherit, the model sent to the backend is never the empty string: it is
    the name itself when the name is not empty and the probe was answered
    with a status from 200 to 299, and otherwise one of three Llama
    models. *)
Theorem X21_unlisted_model (toLowerCase : string -> string) (probe : string -> option Z)
    (model : string) :
  ~ In model listed_models -> ~ In model Object_prototype ->
  exists id,
    select_model toLowerCase probe model = Some id /\ id <> "" /\
    (if probe_accepts (probe model) && negb (String.eqb model "")
     then id = model
     else id = fallback_model toLowerCase model /\ In id fallbacks).
Proof.
  intros Hl Hp. unfold select_model.
  rewrite (MODEL_MAPPING_get_Missing _ Hl Hp).
  pose proof (fallback_model_in toLowerCase model) as Hin.
  assert (Hne : fallback_model toLowerCase model <> "").
  { unfold fallbacks in Hin. simpl in Hin.
    destruct Hin as [<-|[<-|[<-|[]]]]; discriminate. }
  destruct (probe_accepts (probe model)); simpl andb.
  - destruct (String.eqb model "") eqn:E; simpl negb; cbv iota.
    + eexists. split; [reflexivity|]. now split.
    + eexists. split; [reflexivity|]. split; [|reflexivity].
      now apply String.eqb_neq.
  - simpl String.eqb. cbv iota. eexists. split; [reflexivity|]. now split.
Qed.

(** X22. The handler sends a request whose [model] is not a string exactly
    when the client asks for a name that every object inherits from
    [Object.prototype], such as [constructor] or [toString]: the lookup in
    the table finds the inherited member, and neither the probe nor the
    fallback is reached. *)
Theorem X22_inherited_names (toLowerCase : string -> string) (probe : string -> option Z)
    (model : string) :
  select_model toLowerCase probe model = None <-> In model Object_prototype.
Proof.
  split.
  - unfold select_model, MODEL_MAPPING_get.
    destruct (assoc_get model MODEL_MAPPING); [discriminate|].
    destruct (existsb (String.eqb model) Object_prototype) eqn:E; [|discriminate].
    intros _. apply existsb_exists in E as (x & Hx & E).
    apply String.eqb_eq in E. now subst x.
  - unfold Object_prototype. simpl.
    intros H. repeat (destruct H as [<-|H]; [reflexivity|]). destruct H.
Qed.

Lemma X20_listed_models_need_no_probe_witness :
  In "gpt-4o" listed_models /\
  exists id,
    In ("gpt-4o", id) MODEL_MAPPING /\
    forall toLowerCase probe, select_model toLowerCase probe "gpt-4o" = Some id.
Proof.
  split; [simpl; tauto|].
  apply (X20_listed_models_need_no_probe "gpt-4o"). simpl. tauto.
Defined.

Lemma X21_unlisted_model_witness :
  let probe := fun model : string =>
    if String.eqb model "qwen/qwen3-235b-a22b" then Some 200%Z else Some 404%Z in
  (exists id, select_model ascii_toLowerCase probe "qwen/qwen3-235b-a22b" = Some id /\
              id <> "" /\ id = "qwen/qwen3-235b-a22b") /\
  (exists id, select_model ascii_toLowerCase probe "Claude-Opus-4" = Some id /\
              id <> "" /\
              id = fallback_model ascii_toLowerCase "Claude-Opus-4" /\ In id fallbacks).
Proof.
  intros probe. split.
  - apply (X21_unlisted_model ascii_toLowerCase probe "qwen/qwen3-235b-a22b");
      vm_compute; intros H; decompose [or] H; first [discriminate | contradiction].
  - apply (X21_unlisted_model ascii_toLowerCase probe "Claude-Opus-4");
      vm_compute; intros H; decompose [or] H; first [discriminate | contradiction].
Defined.
